(** * iPIXEL Color: command encoder and text renderer

    A shallow embedding of
      - [device/commands.py]      (the wire encoder), and
      - [display/text_renderer.py] (font selection and text layout),
    with the properties of the written specification stated over it, and
    of [number.py], [select.py], [bluetooth/scanner.py] and
    [bluetooth/client.py], with properties read off the code.  A method
    of the Bluetooth code is followed from its call to its return; what
    the device answers to each awaited call is a parameter.

    Python integers are [Z], [bytes]/[bytearray] values are lists of
    [Byte.byte], and a call that may raise returns a [result].  A
    bytearray that is built up by [append]/[extend] is threaded through
    the function as it is in the source.  Log messages are not modelled:
    no function here reads them back. *)

From Stdlib Require Import QArith.QArith_base QArith.Qround.
From Stdlib Require Import ZArith List Lia Bool String Ascii.
From Stdlib Require Strings.Byte.
Import ListNotations.

Local Open Scope Z_scope.

(** ** Python values and exceptions *)

Module Py.

(** An exception is identified by the name of its class. *)
Definition exception := string.

Definition OverflowError : exception := "OverflowError"%string.
Definition ValueError : exception := "ValueError"%string.

Inductive result (A : Type) : Type :=
| Ok (a : A)
| Raise (e : exception).
Arguments Ok {A} a.
Arguments Raise {A} e.

Definition bind {A B} (c : result A) (k : A -> result B) : result B :=
  match c with
  | Ok a => k a
  | Raise e => Raise e
  end.

(** [try: c  except Exception: h] *)
Definition try_except {A} (c : result A) (h : exception -> result A) : result A :=
  match c with
  | Ok a => Ok a
  | Raise e => h e
  end.

Definition bytes := list Byte.byte.

(** [len(b)] *)
Definition len {A} (l : list A) : Z := Z.of_nat (List.length l).

Definition int_of_byte (b : Byte.byte) : Z := Z.of_N (Byte.to_N b).

(** The byte whose value is [x mod 256]. *)
Definition byte_of_int (x : Z) : Byte.byte :=
  match Byte.of_N (Z.to_N (x mod 256)) with
  | Some b => b
  | None => Byte.x00
  end.

Definition in_byte_range (x : Z) : bool := (0 <=? x) && (x <? 256).

(** One element of [bytes([...])], or the argument of [bytearray.append]:
    an integer outside [range(0, 256)] raises [ValueError]. *)
Definition checked_byte (x : Z) : result Byte.byte :=
  if in_byte_range x then Ok (byte_of_int x) else Raise ValueError.

(** [bytes(xs)] for a list of integers. *)
Fixpoint bytes_of_ints (xs : list Z) : result bytes :=
  match xs with
  | [] => Ok []
  | x :: rest =>
      bind (checked_byte x) (fun b =>
      bind (bytes_of_ints rest) (fun bs => Ok (b :: bs)))
  end.

(** [buf.append(x)] on a bytearray. *)
Definition bytearray_append (buf : bytes) (x : Z) : result bytes :=
  bind (checked_byte x) (fun b => Ok (buf ++ [b])).

(** [buf.extend(xs)] where [xs] is a list of integers. *)
Definition bytearray_extend_ints (buf : bytes) (xs : list Z) : result bytes :=
  bind (bytes_of_ints xs) (fun bs => Ok (buf ++ bs)).

(** The [n] low-order base-256 digits of [x], least significant first. *)
Fixpoint le_bytes (n : nat) (x : Z) : bytes :=
  match n with
  | O => []
  | S k => byte_of_int x :: le_bytes k (x / 256)
  end.

(** [x.to_bytes(n, 'little')] (unsigned): a negative [x], or one that
    does not fit in [n] bytes, raises [OverflowError]. *)
Definition to_bytes_little (x : Z) (n : nat) : result bytes :=
  if x <? 0 then Raise OverflowError
  else if 256 ^ Z.of_nat n <=? x then Raise OverflowError
  else Ok (le_bytes n x).

(** [int.from_bytes(b, 'little')] *)
Fixpoint from_bytes_little (b : bytes) : Z :=
  match b with
  | [] => 0
  | d :: rest => int_of_byte d + 256 * from_bytes_little rest
  end.

End Py.

Import Py.

Notation "x <- c ;; k" := (bind c (fun x => k))
  (at level 61, c at next level, right associativity).

(** ** zlib.crc32 *)

(** CRC-32 as computed by [zlib.crc32] (IEEE 802.3, reflected polynomial
    [0xEDB88320], initial value and final xor [0xFFFFFFFF]), bit by bit. *)
Module Zlib.

Definition poly : Z := 0xEDB88320.

Definition shift_bit (crc : Z) : Z :=
  if Z.testbit crc 0
  then Z.lxor (Z.shiftr crc 1) poly
  else Z.shiftr crc 1.

Definition update (crc : Z) (b : Byte.byte) : Z :=
  Nat.iter 8 shift_bit (Z.lxor crc (int_of_byte b)).

Definition crc32 (data : bytes) : Z :=
  Z.lxor (fold_left update data 0xFFFFFFFF) 0xFFFFFFFF.

End Zlib.

(** ** device/commands.py *)

Definition make_power_command (on : bool) : result bytes :=
  let on_byte := if on then 1 else 0 in
  bytes_of_ints [5; 0; 7; 1; on_byte].

Definition make_diy_mode_command (mode : Z) : result bytes :=
  bytes_of_ints [5; 0; 4; 1; mode].

(** The call [make_diy_mode_command()], with the default [mode = 1]. *)
Definition make_diy_mode_command_default : result bytes :=
  make_diy_mode_command 1.

Definition make_command_payload (opcode : Z) (payload : bytes) : result bytes :=
  let total_length := len payload + 4 in
  let command : bytes := [] in
  length_field <- to_bytes_little total_length 2 ;;
  let command := command ++ length_field in
  opcode_field <- to_bytes_little opcode 2 ;;
  let command := command ++ opcode_field in
  let command := command ++ payload in
  Ok command.

Definition make_default_mode_command : result bytes :=
  make_command_payload 0x8003 [].

Definition make_png_command (png_data : bytes) (buffer_number : Z) : result bytes :=
  let data_size := len png_data in
  let data_crc := Z.land (Zlib.crc32 png_data) 0xFFFFFFFF in
  let payload : bytes := [] in
  payload <- bytearray_append payload 0x00 ;;
  size_field <- to_bytes_little data_size 4 ;;
  let payload := payload ++ size_field in
  crc_field <- to_bytes_little data_crc 4 ;;
  let payload := payload ++ crc_field in
  payload <- bytearray_append payload 0x00 ;;
  payload <- bytearray_append payload buffer_number ;;
  let payload := payload ++ png_data in
  let command : bytes := [] in
  let total_length := len payload + 4 in
  length_field <- to_bytes_little total_length 2 ;;
  let command := command ++ length_field in
  command <- bytearray_extend_ints command [0x02; 0x00] ;;
  let command := command ++ payload in
  Ok command.

(** The call [make_png_command(png_data)], with the default
    [buffer_number = 1]. *)
Definition make_png_command_default (png_data : bytes) : result bytes :=
  make_png_command png_data 1.

(** *** The layout of section 3 of the specification, read back

    The repository only writes frames; the device reads them.  These are
    the reader's side of the documented layout
    [[length:u16-LE][opcode:u16-LE][payload]]. *)

Record header := { frame_length : Z; frame_opcode : Z; frame_payload : bytes }.

Definition decode_header (frame : bytes) : header :=
  {| frame_length := from_bytes_little (firstn 2 frame);
     frame_opcode := from_bytes_little (firstn 2 (skipn 2 frame));
     frame_payload := skipn 4 frame |}.

(** The PNG payload as the specification lays it out:
    [[0x00][data_size:u32-LE][crc32(data):u32-LE][0x00][buffer_number:u8][raw_image_bytes]]. *)
Definition png_payload_layout (png_data : bytes) (buffer_number : Z) : bytes :=
  [Byte.x00]
    ++ le_bytes 4 (len png_data)
    ++ le_bytes 4 (Zlib.crc32 png_data)
    ++ [Byte.x00]
    ++ [byte_of_int buffer_number]
    ++ png_data.

(** ** display/text_renderer.py *)

(** *** Strings *)

Module Str.

(** [c.lower()] on an ASCII letter. *)
Definition lower_ascii (c : ascii) : ascii :=
  let n := nat_of_ascii c in
  if ((65 <=? n) && (n <=? 90))%nat then ascii_of_nat (n + 32) else c.

(** [s.lower()] *)
Fixpoint lower (s : string) : string :=
  match s with
  | EmptyString => EmptyString
  | String c rest => String (lower_ascii c) (lower rest)
  end.

(** [s.endswith(suffix)] *)
Definition endswith (s suffix : string) : bool :=
  let n := String.length s in
  let m := String.length suffix in
  ((m <=? n)%nat && String.eqb (substring (n - m) m s) suffix)%bool.

Definition newline : ascii := "010"%char.

(** ['\n' in s] *)
Fixpoint has_newline (s : string) : bool :=
  match s with
  | EmptyString => false
  | String c rest => Ascii.eqb c newline || has_newline rest
  end.

(** [s.split('\n')] *)
Fixpoint split_newline (s : string) : list string :=
  match s with
  | EmptyString => [EmptyString]
  | String c rest =>
      if Ascii.eqb c newline then EmptyString :: split_newline rest
      else match split_newline rest with
           | first :: others => String c first :: others
           | [] => [String c EmptyString]
           end
  end.

(** Truth value of an optional string ([None] and [""] are false). *)
Definition truthy (s : option string) : bool :=
  match s with
  | Some (String _ _) => true
  | _ => false
  end.

End Str.

(** *** The imaging library

    [PIL.Image], [PIL.ImageDraw] and [PIL.ImageFont] and the fonts folder
    are outside the repository; the renderer is written against this
    interface.  Calls the renderer itself wraps in [try]/[except]
    ([truetype], [textbbox]) and the drawing call may raise. *)

Inductive image_mode := mode_1 | mode_RGB.

Inductive fill_color :=
| fill_bit (v : Z)
| fill_rgb (r g b : Z).

Definition bbox : Type := Z * Z * Z * Z.

Class Pillow := {
  font : Type;
  image : Type;
  (** [str(fonts_dir / name)], where [fonts_dir] is
      [Path(__file__).parent.parent / 'fonts'] and [/] is the join of
      [pathlib] *)
  fonts_path : string -> string;
  (** [path.exists()] *)
  path_exists : string -> bool;
  (** [ImageFont.truetype(path, size)] *)
  truetype : string -> Z -> result font;
  (** [ImageFont.load_default()], the font shipped with the library *)
  load_default : font;
  (** the image [Image.new(mode, (width, height), 0)] makes, for a width
      and a height that are not negative *)
  Image_new : image_mode -> Z -> Z -> image;
  (** [draw.textbbox((0, 0), line, font=font)]; the drawing context
      measures according to the mode of its image *)
  textbbox : image_mode -> font -> string -> result bbox;
  (** [draw.text((x, y), line, font=font, fill=fill)] *)
  draw_text : image -> Z * Z -> string -> font -> fill_color -> result image;
  (** [img.point(lambda x: 255 if x else 0)] *)
  Image_point_255 : image -> image;
  (** [dst.paste(src, (0, 0))] *)
  Image_paste : image -> image -> image;
  (** [img.save(buffer, format='PNG'); buffer.getvalue()] *)
  save_png : image -> bytes
}.

(** [ImageDraw.Draw(img)]: the image drawn on, and the font mode that
    follows from the mode of the image. *)
Record ImageDraw `{Pillow} := { draw_im : image; fontmode : image_mode }.

Definition MIN_FONT_SIZE : Z := 4.

(** [range(start, stop, -1)] *)
Definition range_down (start stop : Z) : list Z :=
  map (fun i => start - Z.of_nat i) (seq 0 (Z.to_nat (start - stop))).

Definition text_width (b : bbox) : Z := let '(x0, _, x1, _) := b in x1 - x0.
Definition text_height (b : bbox) : Z := let '(_, y0, _, y1) := b in y1 - y0.

Section Renderer.

Context `{P : Pillow}.

Definition font_extensions : list string :=
  [".ttf"; ".otf"; ".woff"; ".woff2"]%string.

Definition _get_font_path (font_name : string) : option string :=
  let font_name :=
    if negb (existsb (fun ext => Str.endswith (Str.lower font_name) ext) font_extensions)
    then (font_name ++ ".ttf")%string
    else font_name in
  let font_path := fonts_path font_name in
  if path_exists font_path then Some font_path else None.

(** The custom font at [size], when a font name is given, the file is
    found and it loads; [None] otherwise (the failure is only logged). *)
Definition try_custom_font (font_name : option string) (size : Z) : option font :=
  if Str.truthy font_name then
    match font_name with
    | Some name =>
        match _get_font_path name with
        | Some font_path =>
            match truetype font_path size with
            | Ok f => Some f
            | Raise _ => None
            end
        | None => None
        end
    | None => None
    end
  else None.

Definition get_fixed_font (size : Z) (font_name : option string) : result font :=
  try_except
    (match try_custom_font font_name size with
     | Some f => Ok f
     | None => Ok load_default
     end)
    (fun _ => Ok load_default).

(** The font the search measures with at [size]. *)
Definition font_at (font_name : option string) (size : Z) : font :=
  match try_custom_font font_name size with
  | Some f => f
  | None => load_default
  end.

(** The loop over the lines inside the search: the pair [(fits,
    total_height)] when the loop ends, by exhaustion or by [break]. *)
Fixpoint check_lines (mode : image_mode) (f : font) (max_width : Z)
    (lines : list string) (total_height : Z) : result (bool * Z) :=
  match lines with
  | [] => Ok (true, total_height)
  | line :: rest =>
      b <- textbbox mode f line ;;
      if text_width b >? max_width then Ok (false, total_height)
      else check_lines mode f max_width rest (total_height + text_height b)
  end.

(** The body of the [try] for one candidate size: [Some font] when the
    function returns that font, [None] when the loop goes on. *)
Definition try_size (mode : image_mode) (lines : list string)
    (max_width max_height : Z) (font_name : option string) (size : Z)
    : result (option font) :=
  let f := font_at font_name size in
  r <- check_lines mode f max_width lines 0 ;;
  let '(fits, total_height) := r in
  let fits := if total_height >? max_height then false else fits in
  if fits then Ok (Some f) else Ok None.

(** One turn of the loop, with its [except Exception: continue]. *)
Definition loop_turn (mode : image_mode) (lines : list string)
    (max_width max_height : Z) (font_name : option string) (size : Z)
    : result (option font) :=
  try_except (try_size mode lines max_width max_height font_name size)
             (fun _ => Ok None).

(** Whether the search accepts [size] (returns the font of that size). *)
Definition accepts (mode : image_mode) (lines : list string)
    (max_width max_height : Z) (font_name : option string) (size : Z) : bool :=
  match loop_turn mode lines max_width max_height font_name size with
  | Ok (Some _) => true
  | _ => false
  end.

Definition candidate_sizes (max_width max_height : Z) : list Z :=
  range_down (Z.min max_height max_width) MIN_FONT_SIZE.

Fixpoint search_sizes (mode : image_mode) (lines : list string)
    (max_width max_height : Z) (font_name : option string) (sizes : list Z)
    : result font :=
  match sizes with
  | [] => Ok load_default
  | size :: rest =>
      r <- loop_turn mode lines max_width max_height font_name size ;;
      match r with
      | Some f => Ok f
      | None => search_sizes mode lines max_width max_height font_name rest
      end
  end.

Definition get_optimal_font (draw : ImageDraw) (lines : list string)
    (max_width max_height : Z) (font_name : option string) : result font :=
  search_sizes (fontmode draw) lines max_width max_height font_name
               (candidate_sizes max_width max_height).

(** The first loop of [render_text_to_png]: the heights of the lines, in
    order, and their sum. *)
Fixpoint measure_heights (draw : ImageDraw) (font_obj : font)
    (lines : list string) (total_height : Z) (line_heights : list Z)
    : result (Z * list Z) :=
  match lines with
  | [] => Ok (total_height, line_heights)
  | line :: rest =>
      b <- textbbox (fontmode draw) font_obj line ;;
      let line_height := text_height b in
      measure_heights draw font_obj rest
        (total_height + line_height) (line_heights ++ [line_height])
  end.

Definition IndexError : exception := "IndexError"%string.

(** The second loop, over [enumerate(lines)]. *)
Fixpoint draw_lines (draw : ImageDraw) (font_obj : font) (antialias : bool)
    (width : Z) (line_heights : list Z) (i : nat) (lines : list string)
    (current_y : Z) : result ImageDraw :=
  match lines with
  | [] => Ok draw
  | line :: rest =>
      b <- textbbox (fontmode draw) font_obj line ;;
      let x := (width - text_width b) / 2 in
      im <- (if negb antialias
             then draw_text (draw_im draw) (x, current_y) line font_obj (fill_bit 1)
             else draw_text (draw_im draw) (x, current_y) line font_obj
                            (fill_rgb 255 255 255)) ;;
      let draw := {| draw_im := im; fontmode := fontmode draw |} in
      h <- match nth_error line_heights i with
           | Some h => Ok h
           | None => Raise IndexError
           end ;;
      draw_lines draw font_obj antialias width line_heights (S i) rest (current_y + h)
  end.

(** [Image.new(mode, (width, height), color)]: a negative width or height
    raises [ValueError]; otherwise the library makes the image. *)
Definition new_image (mode : image_mode) (width height : Z) : result image :=
  if (width <? 0) || (height <? 0) then Raise ValueError
  else Ok (Image_new mode width height).

Definition render_text_to_png (text : string) (width height : Z)
    (antialias : bool) (font_size : option Z) (font_name : option string)
    : result bytes :=
  draw <- (if negb antialias
           then img <- new_image mode_1 width height ;;
                Ok {| draw_im := img; fontmode := mode_1 |}
           else img <- new_image mode_RGB width height ;;
                Ok {| draw_im := img; fontmode := mode_RGB |}) ;;
  let lines := if Str.has_newline text then Str.split_newline text else [text] in
  font_obj <- match font_size with
              | Some size => get_fixed_font size font_name
              | None => get_optimal_font draw lines width height font_name
              end ;;
  r <- measure_heights draw font_obj lines 0 [] ;;
  let '(total_height, line_heights) := r in
  let y_start := (height - total_height) / 2 in
  draw <- draw_lines draw font_obj antialias width line_heights 0 lines y_start ;;
  if negb antialias then
    rgb_img <- new_image mode_RGB width height ;;
    let rgb_img := Image_paste rgb_img (Image_point_255 (draw_im draw)) in
    Ok (save_png rgb_img)
  else Ok (save_png (draw_im draw)).

End Renderer.

(** *** A small imaging library to run the renderer on

    Fonts on a grid: the built-in font draws every character in a 6 x 11
    cell, the font file [fonts/grid.ttf] draws it in a [size] x [size]
    cell.  [strike] tells at which sizes the file loads (a scalable font
    loads at every positive size, a bitmap font only at its strikes), and
    [builtin_measurable] whether the library measures the built-in font. *)

Module Grid.

Definition OSError : exception := "OSError"%string.

(** [None] is the built-in font, [Some size] the font file at [size]. *)
Definition font : Type := option Z.

Record image := {
  im_mode : image_mode;
  im_width : Z;
  im_height : Z;
  im_drawn : list (Z * Z * string)
}.

Definition cell (f : font) : Z * Z :=
  match f with
  | Some size => (size, size)
  | None => (6, 11)
  end.

Definition textbbox (builtin_measurable : bool) (_ : image_mode) (f : font)
    (line : string) : result bbox :=
  match f, builtin_measurable with
  | None, false => Raise ValueError
  | _, _ => Ok (0, 0, fst (cell f) * Z.of_nat (String.length line), snd (cell f))
  end.

Definition draw_text (im : image) (xy : Z * Z) (line : string) (_ : font)
    (_ : fill_color) : result image :=
  Ok {| im_mode := im_mode im; im_width := im_width im; im_height := im_height im;
        im_drawn := im_drawn im ++ [(fst xy, snd xy, line)] |}.

Definition paste (dst src : image) : image :=
  {| im_mode := im_mode dst; im_width := im_width dst; im_height := im_height dst;
     im_drawn := im_drawn dst ++ im_drawn src |}.

(** Only the signature and the size of the image are kept. *)
Definition save_png (im : image) : bytes :=
  [Byte.x89; Byte.x50; Byte.x4e; Byte.x47]
    ++ le_bytes 4 (im_width im) ++ le_bytes 4 (im_height im).

#[local] Instance pillow (strike : Z -> bool) (builtin_measurable : bool) : Pillow := {
  font := font;
  image := image;
  fonts_path := fun name => ("fonts/" ++ name)%string;
  path_exists := fun p => String.eqb p "fonts/grid.ttf";
  truetype := fun _ size => if strike size then Ok (Some size) else Raise OSError;
  load_default := None;
  Image_new := fun m w h =>
    {| im_mode := m; im_width := w; im_height := h; im_drawn := [] |};
  textbbox := textbbox builtin_measurable;
  draw_text := draw_text;
  Image_point_255 := fun im => im;
  Image_paste := paste;
  save_png := save_png
}.

(** A scalable font file, and a built-in font that can be measured. *)
Definition scalable : Pillow := pillow (fun size => 0 <? size) true.

(** A font file with a single strike at 16 pixels. *)
Definition one_strike : Pillow := pillow (fun size => size =? 16) true.


End Grid.

Definition check_string : bytes :=
  [Byte.x31; Byte.x32; Byte.x33; Byte.x34; Byte.x35; Byte.x36; Byte.x37; Byte.x38; Byte.x39].

(** The metrics hypothesis of the monotonicity property: measured with the
    font of size [small], [line] is no wider and no taller than with the
    font of size [large]. *)
Definition no_larger `{P : Pillow} (mode : image_mode) (font_name : option string)
    (small large : Z) (line : string) : bool :=
  match textbbox mode (font_at font_name small) line,
        textbbox mode (font_at font_name large) line with
  | Ok bs, Ok bl =>
      (text_width bs <=? text_width bl) && (text_height bs <=? text_height bl)
  | _, _ => false
  end.

Definition zeros (n : Z) : bytes := repeat Byte.x00 (Z.to_nat n).

(** What [render_text_to_png] sets up before it selects the font. *)
Definition render_mode (antialias : bool) : image_mode :=
  if negb antialias then mode_1 else mode_RGB.

Definition render_lines (text : string) : list string :=
  if Str.has_newline text then Str.split_newline text else [text].

Definition render_draw `{P : Pillow} (width height : Z) (antialias : bool)
    : ImageDraw :=
  {| draw_im := Image_new (render_mode antialias) width height;
     fontmode := render_mode antialias |}.

(** The font [render_text_to_png] draws with. *)
Definition selected_font `{P : Pillow} (text : string) (width height : Z)
    (antialias : bool) (font_size : option Z) (font_name : option string)
    : result font :=
  match font_size with
  | Some size => get_fixed_font size font_name
  | None =>
      get_optimal_font (render_draw width height antialias)
        (render_lines text) width height font_name
  end.

(** Measuring each of [lines] with the font [f] returns a box. *)
Definition measured `{P : Pillow} (f : font) (mode : image_mode)
    (lines : list string) : Prop :=
  forall line, In line lines -> exists b, textbbox mode f line = Ok b.





(** The first candidate size the search accepts. *)
Definition first_accepted `{P : Pillow} (mode : image_mode) (lines : list string)
    (max_width max_height : Z) (font_name : option string) (sizes : list Z)
    : option Z :=
  find (accepts mode lines max_width max_height font_name) sizes.

(** ** number.py *)

Module Number.

(** A Python [float]: a rational, an infinity or a NaN.  The operations
    the entity applies to one (comparison with an integer, [int()]) are
    exact. *)
Inductive float :=
| Finite (q : Q)
| Infinity (negative : bool)
| NaN.

(** [a <= x], for an integer [a] *)
Definition int_le_float (a : Z) (x : float) : bool :=
  match x with
  | Finite q => Qle_bool (inject_Z a) q
  | Infinity negative => negb negative
  | NaN => false
  end.

(** [x <= a], for an integer [a] *)
Definition float_le_int (x : float) (a : Z) : bool :=
  match x with
  | Finite q => Qle_bool q (inject_Z a)
  | Infinity negative => negative
  | NaN => false
  end.

(** [int(x)]: truncation towards zero; an infinity raises
    [OverflowError], a NaN raises [ValueError]. *)
Definition int_of_float (x : float) : result Z :=
  match x with
  | Finite q => Ok (if Qle_bool (inject_Z 0) q then Qfloor q else Qceiling q)
  | Infinity _ => Raise OverflowError
  | NaN => Raise ValueError
  end.

Definition _attr_native_min_value : Z := 4.
Definition _attr_native_max_value : Z := 64.

Record iPIXELFontSize := {
  _address : string;
  _name : string;
  _attr_name : string;
  _attr_unique_id : string;
  (** [None] means auto-sizing *)
  _attr_native_value : option Z
}.

Definition __init__ (address name : string) : iPIXELFontSize :=
  {| _address := address;
     _name := name;
     _attr_name := (name ++ " Font Size")%string;
     _attr_unique_id := (address ++ "_font_size")%string;
     _attr_native_value := None |}.

Definition native_value (self : iPIXELFontSize) : option Z :=
  _attr_native_value self.

Definition async_set_native_value (self : iPIXELFontSize) (value : float)
    : result iPIXELFontSize :=
  if int_le_float _attr_native_min_value value
     && float_le_int value _attr_native_max_value
  then
    v <- int_of_float value ;;
    Ok {| _address := _address self;
          _name := _name self;
          _attr_name := _attr_name self;
          _attr_unique_id := _attr_unique_id self;
          _attr_native_value := Some v |}
  else Ok self.

(** The entity after the calls [async_set_native_value(v)] for the
    [values], in order. *)
Fixpoint set_all (self : iPIXELFontSize) (values : list float)
    : result iPIXELFontSize :=
  match values with
  | [] => Ok self
  | value :: rest =>
      self <- async_set_native_value self value ;;
      set_all self rest
  end.

(** What the entity may hold: no size, or one within the bounds. *)
Definition within_bounds (v : option Z) : Prop :=
  match v with
  | None => True
  | Some n => _attr_native_min_value <= n <= _attr_native_max_value
  end.

End Number.

(** ** select.py *)

Module FontSelect.

(** [sorted(l)] on strings, which compare by code point. *)
Fixpoint insert (s : string) (l : list string) : list string :=
  match l with
  | [] => [s]
  | x :: rest => if String.leb s x then s :: l else x :: insert s rest
  end.

Fixpoint sorted (l : list string) : list string :=
  match l with
  | [] => []
  | x :: rest => insert x (sorted rest)
  end.

(** [s in l] *)
Definition contains (l : list string) (s : string) : bool :=
  existsb (String.eqb s) l.

(** The fonts folder as the entity reads it: whether it exists, and the
    names [glob("*.ttf")] and [glob("*.otf")] yield. *)
Record fonts_folder := {
  folder_exists : bool;
  glob_ttf : list string;
  glob_otf : list string
}.

Definition _get_available_fonts (folder : fonts_folder) : list string :=
  let fonts := ["Default"%string] in
  let fonts :=
    if folder_exists folder
    then (fonts ++ glob_ttf folder) ++ glob_otf folder
    else fonts in
  sorted fonts.

Record iPIXELFontSelect := {
  _address : string;
  _name : string;
  _attr_name : string;
  _attr_unique_id : string;
  _attr_options : list string;
  _attr_current_option : string
}.

Definition __init__ (folder : fonts_folder) (address name : string)
    : result iPIXELFontSelect :=
  let options := _get_available_fonts folder in
  current <- (if contains options "Default"
              then Ok "Default"%string
              else match options with
                   | first :: _ => Ok first
                   | [] => Raise IndexError
                   end) ;;
  Ok {| _address := address;
        _name := name;
        _attr_name := (name ++ " Font")%string;
        _attr_unique_id := (address ++ "_font_select")%string;
        _attr_options := options;
        _attr_current_option := current |}.

Definition current_option (self : iPIXELFontSelect) : string :=
  _attr_current_option self.

Definition async_select_option (self : iPIXELFontSelect) (option : string)
    : iPIXELFontSelect :=
  if contains (_attr_options self) option
  then {| _address := _address self;
          _name := _name self;
          _attr_name := _attr_name self;
          _attr_unique_id := _attr_unique_id self;
          _attr_options := _attr_options self;
          _attr_current_option := option |}
  else self.

(** The entity after the calls [async_select_option(o)] for the
    [choices], in order. *)
Definition select_all (self : iPIXELFontSelect) (choices : list string)
    : iPIXELFontSelect :=
  fold_left async_select_option choices self.

End FontSelect.

(** ** The Bluetooth library

    [bleak] is outside the repository.  A call that the code awaits is
    performed on a [device]: it is recorded, and its outcome is the next
    one the device has in store ([Done] when it has none).  The outcomes
    are told apart as the handlers of the code tell them apart. *)

Module Bleak.

Inductive outcome :=
| Done
(** raises [asyncio.TimeoutError] *)
| TimedOut
(** raises [BleakError] or one of its subclasses *)
| BleakFails
(** raises an exception that is neither *)
| OtherFails (e : exception).

Inductive call :=
| connect_call (address : string)
| start_notify_call
| stop_notify_call
| disconnect_call
| write_gatt_char_call (data : bytes)
| wait_response_call
| scanner_start_call
| scanner_stop_call.

Record device := {
  pending : list outcome;
  performed : list call
}.

Definition await (c : call) (d : device) : outcome * device :=
  match pending d with
  | [] => (Done, {| pending := []; performed := performed d ++ [c] |})
  | o :: rest => (o, {| pending := rest; performed := performed d ++ [c] |})
  end.

Definition TimeoutError : exception := "TimeoutError"%string.
Definition BleakError : exception := "BleakError"%string.

(** The exception an outcome other than [Done] raises. *)
Definition raised (o : outcome) : exception :=
  match o with
  | TimedOut => TimeoutError
  | BleakFails => BleakError
  | OtherFails e => e
  | Done => ""%string
  end.

Definition failure (o : outcome) : bool :=
  match o with
  | Done => false
  | _ => true
  end.

End Bleak.

(** ** bluetooth/scanner.py *)

Module Scanner.

Record BLEDevice := { address : string; name : option string }.
Record AdvertisementData := { rssi : Z }.

(** The dictionary [{"address": ..., "name": ..., "rssi": ...}] *)
Record device_info := {
  info_address : string;
  info_name : string;
  info_rssi : Z
}.

Section Discovery.

(** [const.DEVICE_NAME_PREFIX] *)
Variable DEVICE_NAME_PREFIX : string.

(** [device.name and device.name.startswith(DEVICE_NAME_PREFIX)] *)
Definition is_ipixel (device : BLEDevice) : bool :=
  match name device with
  | Some (String c rest) => String.prefix DEVICE_NAME_PREFIX (String c rest)
  | _ => false
  end.

Definition detection_callback (devices : list device_info)
    (detection : BLEDevice * AdvertisementData) : list device_info :=
  let (device, advertisement_data) := detection in
  if is_ipixel device then
    match name device with
    | Some device_name =>
        devices ++ [{| info_address := address device;
                       info_name := device_name;
                       info_rssi := rssi advertisement_data |}]
    | None => devices
    end
  else devices.

(** One scan: [detections] are the advertisements the scanner reports,
    in order, between [start] and [stop]. *)
Definition discover_ipixel_devices (d : Bleak.device)
    (detections : list (BLEDevice * AdvertisementData))
    : result (list device_info) * Bleak.device :=
  let devices : list device_info := [] in
  let (started, d) := Bleak.await Bleak.scanner_start_call d in
  match started with
  | Bleak.Done =>
      let devices := fold_left detection_callback detections devices in
      let (stopped, d) := Bleak.await Bleak.scanner_stop_call d in
      match stopped with
      | Bleak.Done => (Ok devices, d)
      | Bleak.BleakFails => (Ok [], d)
      | o => (Raise (Bleak.raised o), d)
      end
  | Bleak.BleakFails => (Ok [], d)
  | o => (Raise (Bleak.raised o), d)
  end.

End Discovery.

End Scanner.

(** ** bluetooth/client.py *)

Module Client.

Definition iPIXELConnectionError : exception := "iPIXELConnectionError"%string.
Definition iPIXELTimeoutError : exception := "iPIXELTimeoutError"%string.

(** A notification callback, by name. *)
Definition callback := string.

Record BluetoothClient := {
  _address : string;
  (** the [BleakClient], by the address it was made for *)
  _client : option string;
  _connected : bool;
  _notification_handler : option callback
}.

Definition __init__ (address : string) : BluetoothClient :=
  {| _address := address;
     _client := None;
     _connected := false;
     _notification_handler := None |}.

(** What [connect] raises for a failure inside its [try]. *)
Definition connect_error (o : Bleak.outcome) : exception :=
  match o with
  | Bleak.TimedOut => iPIXELTimeoutError
  | Bleak.BleakFails => iPIXELConnectionError
  | o => Bleak.raised o
  end.

Definition connect (self : BluetoothClient) (notification_handler : callback)
    (d : Bleak.device) : result bool * BluetoothClient * Bleak.device :=
  let self := {| _address := _address self;
                 _client := Some (_address self);
                 _connected := _connected self;
                 _notification_handler := _notification_handler self |} in
  let (connected, d) := Bleak.await (Bleak.connect_call (_address self)) d in
  if Bleak.failure connected then (Raise (connect_error connected), self, d)
  else
    let self := {| _address := _address self;
                   _client := _client self;
                   _connected := true;
                   _notification_handler := Some notification_handler |} in
    let (notifying, d) := Bleak.await Bleak.start_notify_call d in
    if Bleak.failure notifying then (Raise (connect_error notifying), self, d)
    else (Ok true, self, d).

Definition set_connected (self : BluetoothClient) (connected : bool)
    : BluetoothClient :=
  {| _address := _address self;
     _client := _client self;
     _connected := connected;
     _notification_handler := _notification_handler self |}.

Definition has_client (self : BluetoothClient) : bool :=
  match _client self with
  | Some _ => true
  | None => false
  end.

Definition disconnect (self : BluetoothClient) (d : Bleak.device)
    : result unit * BluetoothClient * Bleak.device :=
  if has_client self && _connected self then
    let (stopped, d) := Bleak.await Bleak.stop_notify_call d in
    let (failed, d) :=
      if Bleak.failure stopped then (stopped, d)
      else Bleak.await Bleak.disconnect_call d in
    let self := set_connected self false in
    match failed with
    | Bleak.Done | Bleak.BleakFails => (Ok tt, self, d)
    | o => (Raise (Bleak.raised o), self, d)
    end
  else (Ok tt, self, d).

(** What the inner [try ... finally] of [send_command] leaves pending
    when the write or the wait fails: the wait catches its own timeout. *)
Definition write_and_wait (command : bytes) (d : Bleak.device)
    : Bleak.outcome * Bleak.device :=
  let (written, d) := Bleak.await (Bleak.write_gatt_char_call command) d in
  if Bleak.failure written then (written, d)
  else
    let (answered, d) := Bleak.await Bleak.wait_response_call d in
    match answered with
    | Bleak.TimedOut => (Bleak.Done, d)
    | o => (o, d)
    end.

Definition send_command (self : BluetoothClient) (command : bytes)
    (d : Bleak.device) : result bool * Bleak.device :=
  if negb (_connected self) || negb (has_client self)
  then (Raise iPIXELConnectionError, d)
  else
    let (notifying, d) := Bleak.await Bleak.start_notify_call d in
    let (failed, d) :=
      if Bleak.failure notifying then (notifying, d)
      else
        let (inner, d) := write_and_wait command d in
        let (stopped, d) := Bleak.await Bleak.stop_notify_call d in
        if Bleak.failure stopped then (stopped, d) else (inner, d) in
    match failed with
    | Bleak.Done => (Ok true, d)
    | Bleak.BleakFails => (Ok false, d)
    | o => (Raise (Bleak.raised o), d)
    end.

(** The state a client can be in: it is marked connected only when it
    has a [BleakClient]. *)
Definition well_formed (self : BluetoothClient) : Prop :=
  _connected self = true -> has_client self = true.

End Client.

(** ** Notions the properties below are stated with *)

(** Whether a file name ends, whatever its case, with one of the
    extensions [_get_font_path] knows. *)
Definition has_font_extension (file : string) : bool :=
  existsb (fun ext => Str.endswith (Str.lower file) ext) font_extensions.

(** [sum(heights)] *)
Definition total (heights : list Z) : Z := fold_right Z.add 0 heights.


(** The dictionary the scanner makes of a detection that has a name. *)
Definition info_of (detection : Scanner.BLEDevice * Scanner.AdvertisementData)
    : list Scanner.device_info :=
  match Scanner.name (fst detection) with
  | Some device_name =>
      [{| Scanner.info_address := Scanner.address (fst detection);
          Scanner.info_name := device_name;
          Scanner.info_rssi := Scanner.rssi (snd detection) |}]
  | None => []
  end.

(** A device that has the outcomes [outcomes] in store and on which
    [calls] were performed. *)
Definition device_with (outcomes : list Bleak.outcome) (calls : list Bleak.call)
    : Bleak.device :=
  {| Bleak.pending := outcomes; Bleak.performed := calls |}.

(** A device that fails, when it does, with a [BleakError] only. *)
Definition fails_as_bleak (d : Bleak.device) : Prop :=
  Forall (fun o => o = Bleak.Done \/ o = Bleak.BleakFails) (Bleak.pending d).

(** A fonts folder with the one file [grid.ttf]. *)
Definition grid_folder : FontSelect.fonts_folder :=
  {| FontSelect.folder_exists := true;
     FontSelect.glob_ttf := ["grid.ttf"%string];
     FontSelect.glob_otf := [] |}.

(** The states a client goes through: made by [__init__], then any
    calls of [connect] and [disconnect], on any device.  ([send_command]
    leaves the client as it is.) *)
Inductive reachable : Client.BluetoothClient -> Prop :=
| reachable_init (address : string) : reachable (Client.__init__ address)
| reachable_connect (self : Client.BluetoothClient) (handler : Client.callback)
    (d : Bleak.device) :
    reachable self -> reachable (snd (fst (Client.connect self handler d)))
| reachable_disconnect (self : Client.BluetoothClient) (d : Bleak.device) :
    reachable self -> reachable (snd (fst (Client.disconnect self d))).

(** The outcome of the [n]-th call on a device, counting from 0. *)
Definition outcome_at (d : Bleak.device) (n : nat) : Bleak.outcome :=
  nth n (Bleak.pending d) Bleak.Done.

(** * Properties *)

Example crc32_check_value : Zlib.crc32 check_string = 0xCBF43926.
Proof. vm_compute. reflexivity. Qed.

Example default_mode_bytes :
  make_default_mode_command = Ok [Byte.x04; Byte.x00; Byte.x03; Byte.x80].
Proof. reflexivity. Qed.

Example split_two_lines :
  Str.split_newline "HI
YOU" = ["HI"; "YOU"]%string.
Proof. reflexivity. Qed.

(** ** Bytes and little-endian integers *)

(** Linear arithmetic, once the sizes of the fields are numerals. *)
Ltac field_lia :=
  change (256 ^ Z.of_nat 2) with 65536 in *;
  change (256 ^ Z.of_nat 4) with 4294967296 in *;
  change (2 ^ 32) with 4294967296 in *;
  lia.

Lemma int_of_byte_range (b : Byte.byte) : 0 <= int_of_byte b < 256.
Proof.
  unfold int_of_byte.
  pose proof (Byte.to_N_bounded b) as Hb.
  lia.
Qed.

Lemma int_of_byte_of_int (x : Z) : int_of_byte (byte_of_int x) = x mod 256.
Proof.
  unfold int_of_byte, byte_of_int.
  assert (Hr : 0 <= x mod 256 < 256) by (apply Z.mod_pos_bound; lia).
  destruct (Byte.of_N (Z.to_N (x mod 256))) as [b|] eqn:E.
  - apply Byte.to_of_N in E. rewrite E. rewrite Z2N.id; lia.
  - apply Byte.of_N_None_iff in E. lia.
Qed.

Lemma int_of_byte_of_int_small (x : Z) :
  0 <= x < 256 -> int_of_byte (byte_of_int x) = x.
Proof.
  intros Hx. rewrite int_of_byte_of_int. apply Z.mod_small; assumption.
Qed.

Lemma length_le_bytes (n : nat) (x : Z) : List.length (le_bytes n x) = n.
Proof.
  revert x. induction n as [|n IH]; intros x; simpl; [reflexivity|].
  now rewrite IH.
Qed.

Lemma len_le_bytes (n : nat) (x : Z) : Py.len (le_bytes n x) = Z.of_nat n.
Proof. unfold Py.len. now rewrite length_le_bytes. Qed.

Lemma from_bytes_le_bytes (n : nat) (x : Z) :
  from_bytes_little (le_bytes n x) = x mod 256 ^ Z.of_nat n.
Proof.
  revert x. induction n as [|n IH]; intros x.
  - simpl. now rewrite Z.mod_1_r.
  - cbn [le_bytes from_bytes_little].
    rewrite IH, int_of_byte_of_int.
    rewrite Nat2Z.inj_succ, Z.pow_succ_r by lia.
    rewrite Z.rem_mul_r by lia.
    reflexivity.
Qed.

Lemma from_bytes_le_bytes_small (n : nat) (x : Z) :
  0 <= x < 256 ^ Z.of_nat n -> from_bytes_little (le_bytes n x) = x.
Proof.
  intros Hx. rewrite from_bytes_le_bytes. apply Z.mod_small; assumption.
Qed.

Lemma to_bytes_little_ok (x : Z) (n : nat) :
  0 <= x < 256 ^ Z.of_nat n -> to_bytes_little x n = Ok (le_bytes n x).
Proof.
  intros Hx. unfold to_bytes_little.
  destruct (Z.ltb_spec x 0); [lia|].
  destruct (Z.leb_spec (256 ^ Z.of_nat n) x); [lia|reflexivity].
Qed.

Lemma to_bytes_little_overflow (x : Z) (n : nat) :
  256 ^ Z.of_nat n <= x -> to_bytes_little x n = Raise OverflowError.
Proof.
  intros Hx. unfold to_bytes_little.
  destruct (Z.ltb_spec x 0); [reflexivity|].
  destruct (Z.leb_spec (256 ^ Z.of_nat n) x); [reflexivity|lia].
Qed.

Lemma checked_byte_ok (x : Z) :
  0 <= x < 256 -> checked_byte x = Ok (byte_of_int x).
Proof.
  intros Hx. unfold checked_byte, in_byte_range.
  destruct (Z.leb_spec 0 x); [|lia].
  destruct (Z.ltb_spec x 256); [reflexivity|lia].
Qed.

Lemma checked_byte_out_of_range (x : Z) :
  ~ 0 <= x < 256 -> checked_byte x = Raise ValueError.
Proof.
  intros Hx. unfold checked_byte, in_byte_range.
  destruct (Z.leb_spec 0 x); [|reflexivity].
  destruct (Z.ltb_spec x 256); [lia|reflexivity].
Qed.

Lemma len_nonneg {A} (l : list A) : 0 <= len l.
Proof. unfold len. lia. Qed.

Lemma len_app {A} (l1 l2 : list A) : len (l1 ++ l2) = len l1 + len l2.
Proof. unfold len. rewrite length_app. lia. Qed.

Lemma len_zeros (n : Z) : 0 <= n -> len (zeros n) = n.
Proof.
  intros Hn. unfold len, zeros. rewrite repeat_length. lia.
Qed.

Lemma crc_field_range (x : Z) : 0 <= Z.land x 0xFFFFFFFF < 256 ^ Z.of_nat 4.
Proof.
  change 0xFFFFFFFF with (Z.ones 32).
  rewrite Z.land_ones by lia.
  change (256 ^ Z.of_nat 4) with (2 ^ 32).
  apply Z.mod_pos_bound. lia.
Qed.

(** ** The generic framing *)

Lemma make_command_payload_ok (opcode : Z) (payload : bytes) :
  0 <= opcode < 65536 -> len payload <= 65531 ->
  make_command_payload opcode payload
  = Ok (le_bytes 2 (len payload + 4) ++ le_bytes 2 opcode ++ payload).
Proof.
  intros Hop Hlen. unfold make_command_payload.
  pose proof (len_nonneg payload).
  rewrite to_bytes_little_ok by field_lia.
  cbn [bind].
  rewrite to_bytes_little_ok by field_lia.
  cbn [bind]. rewrite <- app_assoc. reflexivity.
Qed.

Lemma make_command_payload_too_long (opcode : Z) (payload : bytes) :
  65531 < len payload ->
  make_command_payload opcode payload = Raise OverflowError.
Proof.
  intros Hlen. unfold make_command_payload.
  rewrite to_bytes_little_overflow
    by field_lia.
  reflexivity.
Qed.

(** ** CRC-32 is a 32-bit value *)

Lemma lxor_below_pow2 (a b n : Z) :
  0 <= n -> 0 <= a < 2 ^ n -> 0 <= b < 2 ^ n -> 0 <= Z.lxor a b < 2 ^ n.
Proof.
  intros Hn Ha Hb.
  assert (H0 : 0 <= Z.lxor a b) by (apply Z.lxor_nonneg; lia).
  split; [exact H0|].
  destruct (Z.eq_dec n 0) as [->|Hn0].
  { change (2 ^ 0) with 1 in *.
    replace a with 0 by lia. replace b with 0 by lia. simpl. lia. }
  destruct (Z.eq_dec (Z.lxor a b) 0) as [E|E]; [rewrite E; lia|].
  apply Z.log2_lt_pow2; [lia|].
  pose proof (Z.log2_lxor a b ltac:(lia) ltac:(lia)) as Hl.
  assert (Z.log2 a < n).
  { destruct (Z.eq_dec a 0) as [->|]; [simpl|apply Z.log2_lt_pow2]; lia. }
  assert (Z.log2 b < n).
  { destruct (Z.eq_dec b 0) as [->|]; [simpl|apply Z.log2_lt_pow2]; lia. }
  lia.
Qed.

Lemma shift_bit_range (crc : Z) :
  0 <= crc < 2 ^ 32 -> 0 <= Zlib.shift_bit crc < 2 ^ 32.
Proof.
  intros Hc. unfold Zlib.shift_bit.
  assert (Hs : 0 <= Z.shiftr crc 1 < 2 ^ 32).
  { rewrite Z.shiftr_div_pow2 by lia. change (2 ^ 1) with 2.
    split; [apply Z.div_pos; lia|].
    apply Z.div_lt_upper_bound; lia. }
  destruct (Z.testbit crc 0); [|exact Hs].
  apply lxor_below_pow2; [lia|exact Hs|].
  unfold Zlib.poly. field_lia.
Qed.

Lemma update_range (crc : Z) (b : Byte.byte) :
  0 <= crc < 2 ^ 32 -> 0 <= Zlib.update crc b < 2 ^ 32.
Proof.
  intros Hc. unfold Zlib.update.
  assert (Hx : 0 <= Z.lxor crc (int_of_byte b) < 2 ^ 32).
  { apply lxor_below_pow2; [lia|exact Hc|].
    pose proof (int_of_byte_range b). field_lia. }
  generalize dependent (Z.lxor crc (int_of_byte b)). intros x Hx.
  cbn [Nat.iter nat_rect].
  repeat apply shift_bit_range. exact Hx.
Qed.

Lemma crc32_range (data : bytes) : 0 <= Zlib.crc32 data < 2 ^ 32.
Proof.
  unfold Zlib.crc32.
  apply lxor_below_pow2; [lia| |field_lia].
  assert (H : 0 <= 0xFFFFFFFF < 2 ^ 32) by field_lia.
  generalize dependent 0xFFFFFFFF.
  induction data as [|b data IH]; intros crc Hc; simpl; [exact Hc|].
  apply IH, update_range, Hc.
Qed.

Lemma crc32_masked (data : bytes) :
  Z.land (Zlib.crc32 data) 0xFFFFFFFF = Zlib.crc32 data.
Proof.
  change 0xFFFFFFFF with (Z.ones 32).
  rewrite Z.land_ones by lia.
  apply Z.mod_small, crc32_range.
Qed.

(** ** The PNG command *)

Lemma len_png_payload_layout (png_data : bytes) (buffer_number : Z) :
  len (png_payload_layout png_data buffer_number) = len png_data + 11.
Proof.
  unfold png_payload_layout, len.
  repeat rewrite length_app. repeat rewrite length_le_bytes. simpl. lia.
Qed.

(** Up to the framing, [make_png_command] builds the documented payload. *)
Lemma make_png_command_payload (png_data : bytes) (buffer_number : Z) :
  0 <= buffer_number < 256 -> len png_data < 2 ^ 32 ->
  make_png_command png_data buffer_number
  = (length_field <-
       to_bytes_little (len (png_payload_layout png_data buffer_number) + 4) 2 ;;
     Ok (length_field ++ [Byte.x02; Byte.x00]
           ++ png_payload_layout png_data buffer_number)).
Proof.
  intros Hbn Hlen. unfold make_png_command, bytearray_append.
  pose proof (len_nonneg png_data).
  rewrite (checked_byte_ok 0) by lia.
  rewrite (to_bytes_little_ok (len png_data))
    by field_lia.
  rewrite (to_bytes_little_ok (Z.land _ _)) by apply crc_field_range.
  rewrite crc32_masked.
  rewrite (checked_byte_ok buffer_number) by exact Hbn.
  cbn [bind].
  change (byte_of_int 0) with Byte.x00.
  set (payload := ((((([] ++ [Byte.x00]) ++ _) ++ _) ++ _) ++ _) ++ png_data).
  assert (Hp : payload = png_payload_layout png_data buffer_number).
  { unfold payload, png_payload_layout.
    repeat rewrite <- app_assoc. reflexivity. }
  rewrite Hp. clear Hp payload.
  destruct (to_bytes_little _ 2) as [length_field|e]; [|reflexivity].
  cbn [bind]. unfold bytearray_extend_ints.
  change (bytes_of_ints [2; 0]) with (Ok [Byte.x02; Byte.x00]).
  cbn [bind]. rewrite <- app_assoc. reflexivity.
Qed.

Lemma make_png_command_huge (png_data : bytes) (buffer_number : Z) :
  2 ^ 32 <= len png_data ->
  make_png_command png_data buffer_number = Raise OverflowError.
Proof.
  intros Hlen. unfold make_png_command, bytearray_append.
  rewrite (checked_byte_ok 0) by lia.
  cbn [bind].
  rewrite to_bytes_little_overflow
    by field_lia.
  reflexivity.
Qed.

Lemma make_png_command_bad_buffer (png_data : bytes) (buffer_number : Z) :
  len png_data < 2 ^ 32 -> ~ 0 <= buffer_number < 256 ->
  make_png_command png_data buffer_number = Raise ValueError.
Proof.
  intros Hlen Hbn. unfold make_png_command, bytearray_append.
  pose proof (len_nonneg png_data).
  rewrite (checked_byte_ok 0) by lia.
  rewrite (to_bytes_little_ok (len png_data))
    by field_lia.
  rewrite (to_bytes_little_ok (Z.land _ _)) by apply crc_field_range.
  rewrite (checked_byte_out_of_range buffer_number) by exact Hbn.
  reflexivity.
Qed.

Lemma make_png_command_ok (png_data : bytes) (buffer_number : Z) :
  0 <= buffer_number < 256 -> len png_data <= 65520 ->
  make_png_command png_data buffer_number
  = Ok (le_bytes 2 (len png_data + 15) ++ [Byte.x02; Byte.x00]
          ++ png_payload_layout png_data buffer_number).
Proof.
  intros Hbn Hlen.
  pose proof (len_nonneg png_data).
  rewrite make_png_command_payload
    by (try assumption; field_lia).
  rewrite len_png_payload_layout.
  rewrite to_bytes_little_ok by field_lia.
  cbn [bind].
  replace (len png_data + 11 + 4) with (len png_data + 15) by lia.
  reflexivity.
Qed.

Lemma make_png_command_too_long (png_data : bytes) (buffer_number : Z) :
  0 <= buffer_number < 256 -> 65520 < len png_data ->
  make_png_command png_data buffer_number = Raise OverflowError.
Proof.
  intros Hbn Hlen.
  destruct (Z_lt_le_dec (len png_data) (2 ^ 32)) as [Hs|Hh].
  - rewrite make_png_command_payload by assumption.
    rewrite len_png_payload_layout.
    rewrite to_bytes_little_overflow
      by field_lia.
    reflexivity.
  - apply make_png_command_huge, Hh.
Qed.

(** The framing of the PNG command is the generic framing with opcode
    [0x0002], for images of every size (both fail on the same images). *)
Lemma make_png_command_is_framing (png_data : bytes) (buffer_number : Z) :
  0 <= buffer_number < 256 ->
  make_png_command png_data buffer_number
  = make_command_payload 0x0002 (png_payload_layout png_data buffer_number).
Proof.
  intros Hbn.
  pose proof (len_nonneg png_data).
  destruct (Z_le_gt_dec (len png_data) 65520) as [Hs|Hl].
  - rewrite make_png_command_ok by assumption.
    rewrite make_command_payload_ok
      by (try rewrite len_png_payload_layout; lia).
    rewrite len_png_payload_layout.
    replace (len png_data + 11 + 4) with (len png_data + 15) by lia.
    reflexivity.
  - rewrite make_png_command_too_long by (try assumption; lia).
    rewrite make_command_payload_too_long
      by (rewrite len_png_payload_layout; lia).
    reflexivity.
Qed.

(** ** The encoder against its specification *)

(** C1, as the code has it: a payload of more than 65531 bytes makes the
    generic framing fail, and an image whose PNG payload (11 bytes of
    fields and the image) is longer than 65531 bytes makes the PNG command
    fail; in both the length field is neither truncated nor wrapped, and
    the exception is Python's [OverflowError], raised by [int.to_bytes]. *)
Theorem framing_size_limit (opcode : Z) (payload png_data : bytes)
    (buffer_number : Z) :
  65531 < len payload ->
  0 <= buffer_number < 256 ->
  65531 < len png_data + 11 ->
  make_command_payload opcode payload = Raise OverflowError
  /\ make_png_command png_data buffer_number = Raise OverflowError.
Proof.
  intros Hp Hbn Hpng. split.
  - apply make_command_payload_too_long, Hp.
  - apply make_png_command_too_long; [exact Hbn|lia].
Qed.

Lemma framing_size_limit_witness :
  make_command_payload 0x0107 (zeros 65532) = Raise OverflowError
  /\ make_png_command (zeros 65521) 1 = Raise OverflowError.
Proof.
  apply (framing_size_limit 0x0107 (zeros 65532) (zeros 65521) 1).
  - rewrite len_zeros; lia.
  - lia.
  - rewrite len_zeros; lia.
Defined.

(** C1, as stated, fails: on a payload of 65532 bytes the framing raises
    [OverflowError], which is not an [EncodingError]. *)
Lemma framing_size_limit_not_EncodingError :
  65531 < len (zeros 65532)
  /\ make_command_payload 0x0107 (zeros 65532) = Raise OverflowError
  /\ Raise OverflowError <> @Raise bytes "EncodingError"%string.
Proof.
  split; [rewrite len_zeros; lia|]. split.
  - apply make_command_payload_too_long. rewrite len_zeros; lia.
  - discriminate.
Qed.

(** C3: the literal commands are what the generic framing produces:
    [make_power_command(on)] is the framing of the one byte [on ? 1 : 0]
    with opcode [0x0107], and is the five bytes [5, 0, 7, 1, on ? 1 : 0];
    [make_diy_mode_command(mode)] is the framing of the byte [mode] with
    opcode [0x0104]. *)
Theorem literal_commands_are_framed (on : bool) (mode : Z) :
  0 <= mode < 256 ->
  make_power_command on
  = make_command_payload 0x0107 [byte_of_int (if on then 1 else 0)]
  /\ make_power_command on
     = Ok [Byte.x05; Byte.x00; Byte.x07; Byte.x01; if on then Byte.x01 else Byte.x00]
  /\ make_diy_mode_command mode = make_command_payload 0x0104 [byte_of_int mode]
  /\ int_of_byte (byte_of_int mode) = mode.
Proof.
  intros Hmode. repeat split.
  - destruct on; reflexivity.
  - destruct on; reflexivity.
  - unfold make_diy_mode_command.
    cbn [bytes_of_ints]. rewrite (checked_byte_ok mode) by exact Hmode.
    reflexivity.
  - apply int_of_byte_of_int_small, Hmode.
Qed.

Lemma literal_commands_are_framed_witness :
  make_power_command true = make_command_payload 0x0107 [Byte.x01]
  /\ make_power_command true
     = Ok [Byte.x05; Byte.x00; Byte.x07; Byte.x01; Byte.x01]
  /\ make_diy_mode_command 3 = make_command_payload 0x0104 [Byte.x03]
  /\ int_of_byte Byte.x03 = 3.
Proof.
  apply (literal_commands_are_framed true 3). lia.
Defined.

(** C4: for a 16-bit opcode and a payload of [L <= 65531] bytes the frame
    has [L + 4] bytes, and its first two bytes, read as a little-endian
    integer, are [L + 4]. *)
Theorem frame_length_field (opcode : Z) (payload : bytes) :
  0 <= opcode < 65536 ->
  len payload <= 65531 ->
  exists frame,
    make_command_payload opcode payload = Ok frame
    /\ len frame = len payload + 4
    /\ from_bytes_little (firstn 2 frame) = len payload + 4.
Proof.
  intros Hop Hlen.
  pose proof (len_nonneg payload).
  eexists. split; [apply make_command_payload_ok; assumption|]. split.
  - repeat rewrite len_app. repeat rewrite len_le_bytes. lia.
  - cbn [le_bytes app firstn].
    change [byte_of_int (len payload + 4); byte_of_int ((len payload + 4) / 256)]
      with (le_bytes 2 (len payload + 4)).
    apply from_bytes_le_bytes_small.
    field_lia.
Qed.

Lemma frame_length_field_witness :
  exists frame,
    make_command_payload 0x8003 check_string = Ok frame
    /\ len frame = len check_string + 4
    /\ from_bytes_little (firstn 2 frame) = len check_string + 4.
Proof.
  apply (frame_length_field 0x8003 check_string).
  - lia.
  - vm_compute. discriminate.
Defined.

(** C5: reading the header of a frame back gives the opcode and the
    payload length that went in, and what follows the header is the
    payload. *)
Theorem header_round_trip (opcode : Z) (payload : bytes) :
  0 <= opcode < 65536 ->
  len payload <= 65531 ->
  exists frame,
    make_command_payload opcode payload = Ok frame
    /\ frame_opcode (decode_header frame) = opcode
    /\ frame_length (decode_header frame) - 4 = len payload
    /\ frame_payload (decode_header frame) = payload.
Proof.
  intros Hop Hlen.
  pose proof (len_nonneg payload).
  eexists. split; [apply make_command_payload_ok; assumption|].
  unfold decode_header. cbn [le_bytes app firstn skipn frame_opcode
                             frame_length frame_payload].
  repeat split.
  - change [byte_of_int opcode; byte_of_int (opcode / 256)]
      with (le_bytes 2 opcode).
    apply from_bytes_le_bytes_small. exact Hop.
  - change [byte_of_int (len payload + 4); byte_of_int ((len payload + 4) / 256)]
      with (le_bytes 2 (len payload + 4)).
    rewrite from_bytes_le_bytes_small
      by field_lia.
    lia.
Qed.

Lemma header_round_trip_witness :
  exists frame,
    make_command_payload 0x8003 check_string = Ok frame
    /\ frame_opcode (decode_header frame) = 0x8003
    /\ frame_length (decode_header frame) - 4 = len check_string
    /\ frame_payload (decode_header frame) = check_string.
Proof.
  apply (header_round_trip 0x8003 check_string).
  - lia.
  - vm_compute. discriminate.
Defined.

(** C6: for every image and every buffer number that is a byte,
    [make_png_command] is the generic framing, with opcode [0x0002], of
    the payload
    [[0x00][size:u32-LE][crc32:u32-LE][0x00][buffer_number][image]], the
    CRC-32 being that of the image bytes alone; the CRC and buffer fields
    read back as the values that went in.  When the image fits the frame
    (at most 65520 bytes) the call returns these bytes and the size field
    reads back as the length of the image.  For the empty image the size
    field and the CRC field are zero, as [crc32(b"")] is. *)
Theorem png_command_layout (png_data : bytes) (buffer_number : Z) :
  0 <= buffer_number < 256 ->
  make_png_command png_data buffer_number
  = make_command_payload 0x0002 (png_payload_layout png_data buffer_number)
  /\ from_bytes_little (le_bytes 4 (Zlib.crc32 png_data)) = Zlib.crc32 png_data
  /\ int_of_byte (byte_of_int buffer_number) = buffer_number
  /\ (len png_data <= 65520 ->
      make_png_command png_data buffer_number
      = Ok (le_bytes 2 (len png_data + 15) ++ [Byte.x02; Byte.x00]
              ++ [Byte.x00]
              ++ le_bytes 4 (len png_data)
              ++ le_bytes 4 (Zlib.crc32 png_data)
              ++ [Byte.x00]
              ++ [byte_of_int buffer_number]
              ++ png_data)
      /\ from_bytes_little (le_bytes 4 (len png_data)) = len png_data)
  /\ Zlib.crc32 [] = 0
  /\ make_png_command_default []
     = Ok [Byte.x0f; Byte.x00; Byte.x02; Byte.x00;
           Byte.x00;
           Byte.x00; Byte.x00; Byte.x00; Byte.x00;
           Byte.x00; Byte.x00; Byte.x00; Byte.x00;
           Byte.x00; Byte.x01].
Proof.
  intros Hbn.
  pose proof (len_nonneg png_data).
  split; [apply make_png_command_is_framing, Hbn|].
  split; [apply from_bytes_le_bytes_small, crc32_range|].
  split; [apply int_of_byte_of_int_small, Hbn|].
  split; [|split; reflexivity].
  intros Hlen. split; [apply make_png_command_ok; assumption|].
  apply from_bytes_le_bytes_small.
  field_lia.
Qed.

Lemma png_command_layout_witness :
  make_png_command check_string 1
  = make_command_payload 0x0002 (png_payload_layout check_string 1)
  /\ make_png_command check_string 1
     = Ok [Byte.x18; Byte.x00; Byte.x02; Byte.x00;
           Byte.x00;
           Byte.x09; Byte.x00; Byte.x00; Byte.x00;
           Byte.x26; Byte.x39; Byte.xf4; Byte.xcb;
           Byte.x00; Byte.x01;
           Byte.x31; Byte.x32; Byte.x33; Byte.x34; Byte.x35;
           Byte.x36; Byte.x37; Byte.x38; Byte.x39].
Proof.
  destruct (png_command_layout check_string 1) as (Hframed & _ & _ & Hfits & _);
    [lia|].
  split; [exact Hframed|].
  destruct Hfits as [Hbytes _]; [vm_compute; discriminate|].
  exact Hbytes.
Defined.

(** C7, as the code has it: [make_diy_mode_command] has no check of its
    own, but it builds a [bytes] value: for every [mode] in [0..255] the
    call returns the five bytes [5, 0, 4, 1, mode], and for every other
    integer [bytes()] raises [ValueError]; with the default argument it
    returns [5, 0, 4, 1, 1]. *)
Theorem diy_mode_command_bytes (mode : Z) :
  make_diy_mode_command mode
  = (if in_byte_range mode
     then Ok [Byte.x05; Byte.x00; Byte.x04; Byte.x01; byte_of_int mode]
     else Raise ValueError)
  /\ (if in_byte_range mode then int_of_byte (byte_of_int mode) = mode else True)
  /\ make_diy_mode_command_default
     = Ok [Byte.x05; Byte.x00; Byte.x04; Byte.x01; Byte.x01].
Proof.
  split; [|split; [|reflexivity]].
  - unfold make_diy_mode_command. cbn [bytes_of_ints]. unfold checked_byte.
    destruct (in_byte_range mode); reflexivity.
  - unfold in_byte_range.
    destruct (Z.leb_spec 0 mode); [|exact I].
    destruct (Z.ltb_spec mode 256); [|exact I].
    cbn [andb]. apply int_of_byte_of_int_small. lia.
Qed.

(** C7, as stated, fails: [mode = 256] is an integer a caller can pass,
    and the call raises [ValueError] instead of returning five bytes. *)
Lemma diy_mode_command_256_raises :
  make_diy_mode_command 256 = Raise ValueError.
Proof. reflexivity. Qed.

(** C10, as the code has it: for an image of fewer than 2^32 bytes, a
    buffer number outside [0..255] makes [make_png_command] raise
    [ValueError] and nothing is returned; whenever the call returns, the
    buffer number is in [0..255] and is the byte at offset 14 of the
    result; and the call does return for a buffer number in [0..255] and
    an image of at most 65520 bytes. *)
Theorem png_command_buffer_number (png_data : bytes) (buffer_number : Z) :
  len png_data < 2 ^ 32 ->
  (in_byte_range buffer_number = false ->
   make_png_command png_data buffer_number = Raise ValueError)
  /\ (forall frame,
        make_png_command png_data buffer_number = Ok frame ->
        in_byte_range buffer_number = true
        /\ option_map int_of_byte (nth_error frame 14) = Some buffer_number)
  /\ (in_byte_range buffer_number = true ->
      len png_data <= 65520 ->
      exists frame, make_png_command png_data buffer_number = Ok frame).
Proof.
  intros Hsize.
  pose proof (len_nonneg png_data).
  assert (Hrange : in_byte_range buffer_number = true -> 0 <= buffer_number < 256).
  { unfold in_byte_range. intros Hb. apply andb_prop in Hb. lia. }
  assert (Hout : in_byte_range buffer_number = false -> ~ 0 <= buffer_number < 256).
  { unfold in_byte_range. intros Hb Hr.
    destruct (Z.leb_spec 0 buffer_number); [|lia].
    destruct (Z.ltb_spec buffer_number 256); [discriminate|lia]. }
  split; [|split].
  - intros Hb. apply make_png_command_bad_buffer; auto.
  - intros frame Hframe.
    destruct (in_byte_range buffer_number) eqn:Hb.
    + split; [reflexivity|].
      specialize (Hrange eq_refl).
      rewrite make_png_command_payload in Hframe by assumption.
      destruct (to_bytes_little _ 2) as [length_field|e] eqn:El;
        [|discriminate].
      cbn [bind] in Hframe. injection Hframe as <-.
      assert (Hl : length_field
                   = le_bytes 2 (len (png_payload_layout png_data buffer_number) + 4)).
      { unfold to_bytes_little in El.
        destruct (_ <? 0); [discriminate|].
        destruct (_ <=? _); [discriminate|].
        now injection El as <-. }
      rewrite Hl. cbn [le_bytes app png_payload_layout nth_error option_map].
      f_equal. apply int_of_byte_of_int_small, Hrange.
    + rewrite make_png_command_bad_buffer in Hframe by auto. discriminate.
  - intros Hb Hlen. eexists. apply make_png_command_ok; auto.
Qed.

Lemma png_command_buffer_number_witness :
  make_png_command check_string 300 = Raise ValueError
  /\ (exists frame,
        make_png_command check_string 7 = Ok frame
        /\ option_map int_of_byte (nth_error frame 14) = Some 7).
Proof.
  split.
  - apply (png_command_buffer_number check_string 300);
      [vm_compute; reflexivity|reflexivity].
  - destruct (png_command_buffer_number check_string 7) as (_ & Hat & Hret);
      [vm_compute; reflexivity|].
    destruct Hret as [frame Hframe];
      [reflexivity|vm_compute; discriminate|].
    exists frame. split; [exact Hframe|].
    apply Hat, Hframe.
Defined.

(** C10, as stated, fails: on an image of 2^32 bytes with buffer number
    256 the four-byte size field overflows first, and the exception is
    [OverflowError], not [ValueError]. *)
Lemma png_command_huge_image_bad_buffer :
  in_byte_range 256 = false
  /\ make_png_command (zeros 4294967296) 256 = Raise OverflowError
  /\ Raise OverflowError <> @Raise bytes ValueError.
Proof.
  split; [reflexivity|]. split.
  - apply make_png_command_huge.
    rewrite len_zeros by lia.
    field_lia.
  - discriminate.
Qed.

(** ** The search for a font size *)

Lemma in_range_down (start stop s : Z) :
  In s (range_down start stop) <-> stop < s <= start.
Proof.
  unfold range_down. rewrite in_map_iff. split.
  - intros (i & <- & Hi). apply in_seq in Hi. lia.
  - intros Hs. exists (Z.to_nat (start - s)). split; [lia|].
    apply in_seq. lia.
Qed.

(** The sizes the search tries are those above [MIN_FONT_SIZE], up to the
    smaller side of the canvas. *)
Lemma in_candidate_sizes (max_width max_height s : Z) :
  In s (candidate_sizes max_width max_height)
  <-> MIN_FONT_SIZE < s <= Z.min max_height max_width.
Proof. unfold candidate_sizes. apply in_range_down. Qed.

Lemma candidate_sizes_skip_floor (max_width max_height : Z) :
  ~ In MIN_FONT_SIZE (candidate_sizes max_width max_height).
Proof. rewrite in_candidate_sizes. lia. Qed.

Section Search.

Context `{P : Pillow}.
Variables (mode : image_mode) (lines : list string).
Variables (max_width max_height : Z) (font_name : option string).

Lemma loop_turn_ok (size : Z) :
  exists r, loop_turn mode lines max_width max_height font_name size = Ok r.
Proof.
  unfold loop_turn, try_except.
  destruct (try_size _ _ _ _ _ _) as [r|e]; eauto.
Qed.

Lemma loop_turn_accepts (size : Z) :
  loop_turn mode lines max_width max_height font_name size
  = Ok (if accepts mode lines max_width max_height font_name size
        then Some (font_at font_name size) else None).
Proof.
  unfold accepts, loop_turn, try_except, try_size.
  destruct (check_lines _ _ _ _ _) as [[fits total_height]|e];
    cbn [bind]; [|reflexivity].
  destruct (total_height >? max_height), fits; reflexivity.
Qed.

(** What accepting a size means: every line is measured, none is wider
    than the canvas, and the heights add up to at most its height. *)
Lemma accepts_iff (size : Z) :
  accepts mode lines max_width max_height font_name size = true
  <-> exists total_height,
        check_lines mode (font_at font_name size) max_width lines 0
        = Ok (true, total_height)
        /\ total_height <= max_height.
Proof.
  unfold accepts, loop_turn, try_except, try_size.
  destruct (check_lines _ _ _ _ _) as [[fits total_height]|e]; cbn [bind].
  - destruct (Z.gtb_spec total_height max_height), fits; split;
      try discriminate; try reflexivity.
    + intros (t & [= <-] & Ht). lia.
    + intros (t & [= ] & _).
    + intros _. exists total_height. split; [reflexivity|lia].
    + intros (t & [= ] & _).
  - split; [discriminate|]. intros (t & [=] & _).
Qed.

(** The search returns the font of the first size it accepts, and the
    built-in font when it accepts none. *)
Lemma search_sizes_first_accepted (sizes : list Z) :
  search_sizes mode lines max_width max_height font_name sizes
  = Ok (match first_accepted mode lines max_width max_height font_name sizes with
        | Some size => font_at font_name size
        | None => load_default
        end).
Proof.
  unfold first_accepted.
  induction sizes as [|size rest IH]; [reflexivity|].
  cbn [search_sizes find]. rewrite loop_turn_accepts. cbn [bind].
  destruct (accepts _ _ _ _ _ size); [reflexivity|exact IH].
Qed.

Lemma check_lines_no_larger (small large : Z) (ls : list string) :
  forall t t' total,
    check_lines mode (font_at font_name large) max_width ls t = Ok (true, total) ->
    forallb (no_larger mode font_name small large) ls = true ->
    exists total',
      check_lines mode (font_at font_name small) max_width ls t' = Ok (true, total')
      /\ total' - t' <= total - t.
Proof.
  induction ls as [|line rest IH]; intros t t' total Hlarge Hmetric.
  - cbn [check_lines] in *. injection Hlarge as <-.
    exists t'. split; [reflexivity|lia].
  - cbn [check_lines forallb] in *.
    apply andb_prop in Hmetric. destruct Hmetric as [Hline Hrest].
    unfold no_larger in Hline.
    destruct (textbbox mode (font_at font_name small) line) as [bs|] eqn:Es;
      [|discriminate].
    destruct (textbbox mode (font_at font_name large) line) as [bl|] eqn:El;
      [|discriminate].
    cbn [bind] in *.
    apply andb_prop in Hline. destruct Hline as [Hw Hh].
    apply Z.leb_le in Hw, Hh.
    destruct (Z.gtb_spec (text_width bl) max_width); [discriminate|].
    destruct (Z.gtb_spec (text_width bs) max_width); [lia|].
    destruct (IH _ (t' + text_height bs) _ Hlarge Hrest) as (total' & Hc & Ht).
    exists total'. split; [exact Hc|lia].
Qed.

End Search.

(** ** The renderer against its specification *)

(** C2, at an input where it matters: a scalable grid font, the text
    ["AB"] and an 8 x 8 canvas.  The text fits at size 4 (8 pixels wide, 4
    high) and at no larger size; the search tries 8, 7, 6 and 5, never 4,
    accepts none of them and returns the built-in font. *)
Theorem auto_fit_never_tries_size_4 :
  candidate_sizes 8 8 = [8; 7; 6; 5]
  /\ existsb (Z.eqb MIN_FONT_SIZE) (candidate_sizes 8 8) = false
  /\ accepts (P := Grid.scalable) mode_RGB ["AB"%string] 8 8
       (Some "grid"%string) MIN_FONT_SIZE = true
  /\ first_accepted (P := Grid.scalable) mode_RGB ["AB"%string] 8 8
       (Some "grid"%string) (candidate_sizes 8 8) = None
  /\ get_optimal_font (P := Grid.scalable)
       (render_draw (P := Grid.scalable) 8 8 true) ["AB"%string] 8 8
       (Some "grid"%string)
     = Ok (load_default (Pillow := Grid.scalable)).
Proof. repeat split; vm_compute; reflexivity. Qed.

(** C9, as the code has it: if the search accepts the size [large], it
    accepts every size [small] at which each line is measured no wider and
    no taller than at [large].  This is so for every smaller size when the
    built-in font is used throughout or a scalable font loads at every
    size. *)
Theorem accepted_at_no_larger_metrics `{P : Pillow} (mode : image_mode)
    (lines : list string) (max_width max_height : Z)
    (font_name : option string) (small large : Z) :
  accepts mode lines max_width max_height font_name large = true ->
  forallb (no_larger mode font_name small large) lines = true ->
  accepts mode lines max_width max_height font_name small = true.
Proof.
  intros Hlarge Hmetric.
  apply accepts_iff in Hlarge. destruct Hlarge as (total & Hc & Ht).
  destruct (check_lines_no_larger mode max_width font_name small large
              lines 0 0 total Hc Hmetric) as (total' & Hc' & Ht').
  apply accepts_iff. exists total'. split; [exact Hc'|lia].
Qed.

Lemma accepted_at_no_larger_metrics_witness :
  accepts (P := Grid.scalable) mode_RGB ["HI"; "YOU"]%string 32 32
    (Some "grid"%string) 7 = true.
Proof.
  apply (accepted_at_no_larger_metrics (P := Grid.scalable) mode_RGB
           ["HI"; "YOU"]%string 32 32 (Some "grid"%string) 7 10).
  - vm_compute. reflexivity.
  - vm_compute. reflexivity.
Defined.

(** C9, as stated, fails: with a font file that has a single strike at 16
    pixels, the search on ["HELLO"] and a 32 x 32 canvas measures with the
    built-in font at size 32, where the text fits, and with the font file
    at size 16, where it does not; both sizes are candidates. *)
Lemma accepted_sizes_not_downward_closed :
  existsb (Z.eqb 32) (candidate_sizes 32 32) = true
  /\ existsb (Z.eqb 16) (candidate_sizes 32 32) = true
  /\ accepts (P := Grid.one_strike) mode_RGB ["HELLO"%string] 32 32
       (Some "grid"%string) 32 = true
  /\ accepts (P := Grid.one_strike) mode_RGB ["HELLO"%string] 32 32
       (Some "grid"%string) 16 = false.
Proof. repeat split; vm_compute; reflexivity. Qed.

(** ** Rendering *)

Section Rendering.

Context `{P : Pillow}.

(** Loading a font never raises: a name that is missing, a file that is
    not found and a file that does not load all give the built-in font. *)
Lemma get_fixed_font_ok (size : Z) (font_name : option string) :
  get_fixed_font size font_name = Ok (font_at font_name size).
Proof.
  unfold get_fixed_font, font_at, try_except.
  destruct (try_custom_font font_name size); reflexivity.
Qed.



Lemma render_text_to_png_steps (text : string) (width height : Z)
    (antialias : bool) (font_size : option Z) (font_name : option string) :
  render_text_to_png text width height antialias font_size font_name
  = if (width <? 0) || (height <? 0) then Raise ValueError
    else
      (font_obj <- selected_font text width height antialias font_size font_name ;;
       r <- measure_heights (render_draw width height antialias) font_obj
              (render_lines text) 0 [] ;;
       draw <- draw_lines (render_draw width height antialias) font_obj antialias
                 width (snd r) 0 (render_lines text) ((height - fst r) / 2) ;;
       if negb antialias then
         Ok (save_png (Image_paste (Image_new mode_RGB width height)
                                   (Image_point_255 (draw_im draw))))
       else Ok (save_png (draw_im draw))).
Proof.
  unfold render_text_to_png, new_image, selected_font, render_draw,
    render_mode, render_lines.
  destruct ((width <? 0) || (height <? 0));
    [destruct antialias; reflexivity|].
  destruct antialias; cbn [negb bind];
    destruct font_size as [size|];
    (destruct (_ : result font) as [font_obj|e]; cbn [bind]; [|reflexivity]);
    (destruct (measure_heights _ _ _ _ _) as [[T hs]|e]; cbn [bind];
     [|reflexivity]);
    cbn [fst snd];
    (destruct (draw_lines _ _ _ _ _ _ _ _) as [draw|e]; reflexivity).
Qed.


Variables (f : font) (mode : image_mode).



End Rendering.




(** * Further properties of the code *)

(** ** Every outcome of the encoder *)

Lemma in_byte_range_iff (x : Z) : in_byte_range x = true <-> 0 <= x < 256.
Proof.
  unfold in_byte_range. rewrite andb_true_iff, Z.leb_le, Z.ltb_lt. tauto.
Qed.

Lemma in_byte_range_false_iff (x : Z) :
  in_byte_range x = false <-> ~ 0 <= x < 256.
Proof.
  rewrite <- in_byte_range_iff. destruct (in_byte_range x); split;
    congruence.
Qed.

Lemma make_command_payload_cases (opcode : Z) (payload : bytes) :
  make_command_payload opcode payload
  = if (len payload <=? 65531) && ((0 <=? opcode) && (opcode <? 65536))
    then Ok (le_bytes 2 (len payload + 4) ++ le_bytes 2 opcode ++ payload)
    else Raise OverflowError.
Proof.
  pose proof (len_nonneg payload).
  destruct (Z.leb_spec (len payload) 65531) as [Hl|Hl]; cbn [andb].
  - destruct (Z.leb_spec 0 opcode) as [H0|H0]; cbn [andb].
    + destruct (Z.ltb_spec opcode 65536) as [H1|H1].
      * apply make_command_payload_ok; lia.
      * unfold make_command_payload.
        rewrite to_bytes_little_ok by field_lia. cbn [bind].
        rewrite to_bytes_little_overflow by field_lia. reflexivity.
    + unfold make_command_payload.
      rewrite to_bytes_little_ok by field_lia. cbn [bind].
      unfold to_bytes_little. destruct (Z.ltb_spec opcode 0); [reflexivity|lia].
  - apply make_command_payload_too_long, Hl.
Qed.

Lemma make_command_payload_inv (opcode : Z) (payload frame : bytes) :
  make_command_payload opcode payload = Ok frame ->
  0 <= opcode < 65536 /\ len payload <= 65531
  /\ frame = le_bytes 2 (len payload + 4) ++ le_bytes 2 opcode ++ payload.
Proof.
  rewrite make_command_payload_cases.
  destruct (Z.leb_spec (len payload) 65531); cbn [andb]; [|discriminate].
  destruct (Z.leb_spec 0 opcode); cbn [andb]; [|discriminate].
  destruct (Z.ltb_spec opcode 65536); [|discriminate].
  intros [= <-]. repeat split; try lia.
Qed.

Lemma le_bytes_2_inj (x y : Z) :
  0 <= x < 65536 -> 0 <= y < 65536 -> le_bytes 2 x = le_bytes 2 y -> x = y.
Proof.
  intros Hx Hy E.
  rewrite <- (from_bytes_le_bytes_small 2 x), <- (from_bytes_le_bytes_small 2 y)
    by field_lia.
  now rewrite E.
Qed.

(** The generic framing returns a frame exactly when the opcode fits 16
    bits and the payload has at most 65531 bytes; every other call raises
    [OverflowError], and no call raises anything else. *)
Theorem make_command_payload_outcome (opcode : Z) (payload : bytes) :
  make_command_payload opcode payload
  = if (len payload <=? 65531) && ((0 <=? opcode) && (opcode <? 65536))
    then Ok (le_bytes 2 (len payload + 4) ++ le_bytes 2 opcode ++ payload)
    else Raise OverflowError.
Proof. apply make_command_payload_cases. Qed.

(** Two calls of the generic framing that return the same frame were
    given the same opcode and the same payload. *)
Theorem make_command_payload_injective (opcode1 opcode2 : Z)
    (payload1 payload2 frame : bytes) :
  make_command_payload opcode1 payload1 = Ok frame ->
  make_command_payload opcode2 payload2 = Ok frame ->
  opcode1 = opcode2 /\ payload1 = payload2.
Proof.
  intros H1 H2.
  apply make_command_payload_inv in H1. destruct H1 as (Ho1 & Hl1 & E1).
  apply make_command_payload_inv in H2. destruct H2 as (Ho2 & Hl2 & E2).
  rewrite E1 in E2. cbn [le_bytes app] in E2.
  injection E2 as Ea Eb Ec Ed Ep.
  split; [|exact Ep].
  apply le_bytes_2_inj; try assumption.
  cbn [le_bytes]. now rewrite Ec, Ed.
Qed.

Lemma make_command_payload_injective_witness :
  0x8003 = 0x8003 /\ check_string = check_string.
Proof.
  apply (make_command_payload_injective 0x8003 0x8003 check_string check_string
           ([Byte.x0d; Byte.x00; Byte.x03; Byte.x80] ++ check_string));
    reflexivity.
Defined.

Lemma make_png_command_cases (png_data : bytes) (buffer_number : Z) :
  make_png_command png_data buffer_number
  = if 4294967296 <=? len png_data then Raise OverflowError
    else if negb (in_byte_range buffer_number) then Raise ValueError
    else if 65520 <? len png_data then Raise OverflowError
    else Ok (le_bytes 2 (len png_data + 15) ++ [Byte.x02; Byte.x00]
               ++ png_payload_layout png_data buffer_number).
Proof.
  destruct (Z.leb_spec 4294967296 (len png_data)) as [Hh|Hh].
  { apply make_png_command_huge. field_lia. }
  destruct (in_byte_range buffer_number) eqn:Hb; cbn [negb].
  - apply in_byte_range_iff in Hb.
    destruct (Z.ltb_spec 65520 (len png_data)) as [Hl|Hl].
    + apply make_png_command_too_long; assumption.
    + apply make_png_command_ok; assumption.
  - apply in_byte_range_false_iff in Hb.
    apply make_png_command_bad_buffer; [field_lia|exact Hb].
Qed.

Lemma make_png_command_inv (png_data : bytes) (buffer_number : Z)
    (frame : bytes) :
  make_png_command png_data buffer_number = Ok frame ->
  0 <= buffer_number < 256 /\ len png_data <= 65520
  /\ frame = le_bytes 2 (len png_data + 15) ++ [Byte.x02; Byte.x00]
               ++ png_payload_layout png_data buffer_number.
Proof.
  rewrite make_png_command_cases.
  destruct (Z.leb_spec 4294967296 (len png_data)); [discriminate|].
  destruct (in_byte_range buffer_number) eqn:Hb; cbn [negb]; [|discriminate].
  destruct (Z.ltb_spec 65520 (len png_data)); [discriminate|].
  intros [= <-]. apply in_byte_range_iff in Hb. auto.
Qed.

(** Every outcome of [make_png_command]: an image of 2^32 bytes or more
    raises [OverflowError]; otherwise a buffer number outside [0..255]
    raises [ValueError]; otherwise an image of more than 65520 bytes
    raises [OverflowError]; otherwise the frame is returned.  The CRC
    field never overflows. *)
Theorem make_png_command_outcome (png_data : bytes) (buffer_number : Z) :
  make_png_command png_data buffer_number
  = if 4294967296 <=? len png_data then Raise OverflowError
    else if negb (in_byte_range buffer_number) then Raise ValueError
    else if 65520 <? len png_data then Raise OverflowError
    else Ok (le_bytes 2 (len png_data + 15) ++ [Byte.x02; Byte.x00]
               ++ png_payload_layout png_data buffer_number).
Proof. apply make_png_command_cases. Qed.

(** What a reader gets out of a frame [make_png_command] returned: the
    opcode 2, a length field equal to the length of the frame, which is
    15 more than that of the image; the size field and the CRC field of
    the image; and the image itself after the first 15 bytes. *)
Theorem png_frame_read_back (png_data : bytes) (buffer_number : Z)
    (frame : bytes) :
  make_png_command png_data buffer_number = Ok frame ->
  frame_opcode (decode_header frame) = 2
  /\ frame_length (decode_header frame) = len frame
  /\ len frame = len png_data + 15
  /\ from_bytes_little (firstn 4 (skipn 5 frame)) = len png_data
  /\ from_bytes_little (firstn 4 (skipn 9 frame)) = Zlib.crc32 png_data
  /\ skipn 15 frame = png_data.
Proof.
  intros H. apply make_png_command_inv in H. destruct H as (Hb & Hl & ->).
  pose proof (len_nonneg png_data).
  assert (Hlen : len (le_bytes 2 (len png_data + 15) ++ [Byte.x02; Byte.x00]
                        ++ png_payload_layout png_data buffer_number)
                 = len png_data + 15).
  { repeat rewrite len_app. rewrite len_le_bytes, len_png_payload_layout.
    change (len [Byte.x02; Byte.x00]) with 2. lia. }
  split; [reflexivity|]. split.
  { rewrite Hlen. unfold decode_header.
    cbn [le_bytes app firstn frame_length].
    change [byte_of_int (len png_data + 15);
            byte_of_int ((len png_data + 15) / 256)]
      with (le_bytes 2 (len png_data + 15)).
    apply from_bytes_le_bytes_small. field_lia. }
  split; [exact Hlen|].
  unfold png_payload_layout. cbn [le_bytes app firstn skipn].
  repeat split.
  - change (from_bytes_little (le_bytes 4 (len png_data)) = len png_data).
    apply from_bytes_le_bytes_small. field_lia.
  - change (from_bytes_little (le_bytes 4 (Zlib.crc32 png_data))
            = Zlib.crc32 png_data).
    apply from_bytes_le_bytes_small, crc32_range.
Qed.

Lemma png_frame_read_back_witness :
  exists frame,
    make_png_command check_string 1 = Ok frame
    /\ frame_opcode (decode_header frame) = 2
    /\ from_bytes_little (firstn 4 (skipn 5 frame)) = 9
    /\ from_bytes_little (firstn 4 (skipn 9 frame)) = 0xCBF43926
    /\ skipn 15 frame = check_string.
Proof.
  destruct (make_png_command check_string 1) as [frame|e] eqn:E;
    [|vm_compute in E; discriminate].
  exists frame. split; [reflexivity|].
  destruct (png_frame_read_back check_string 1 frame E)
    as (Hop & _ & _ & Hsize & Hcrc & Himage).
  repeat split; assumption.
Defined.

(** Two calls of [make_png_command] that return the same frame were
    given the same image and the same buffer number. *)
Theorem make_png_command_injective (png1 png2 : bytes) (buffer1 buffer2 : Z)
    (frame : bytes) :
  make_png_command png1 buffer1 = Ok frame ->
  make_png_command png2 buffer2 = Ok frame ->
  png1 = png2 /\ buffer1 = buffer2.
Proof.
  intros H1 H2.
  apply make_png_command_inv in H1. destruct H1 as (Hb1 & _ & E1).
  apply make_png_command_inv in H2. destruct H2 as (Hb2 & _ & E2).
  rewrite E1 in E2. unfold png_payload_layout in E2.
  cbn [le_bytes app] in E2.
  split.
  - apply (f_equal (skipn 15)) in E2. exact E2.
  - apply (f_equal (fun l => option_map int_of_byte (nth_error l 14))) in E2.
    cbn [nth_error option_map] in E2.
    rewrite (int_of_byte_of_int_small buffer1 Hb1),
            (int_of_byte_of_int_small buffer2 Hb2) in E2.
    now injection E2.
Qed.

Lemma make_png_command_injective_witness :
  check_string = check_string /\ 7 = 7.
Proof.
  destruct (make_png_command check_string 7) as [frame|e] eqn:E;
    [|vm_compute in E; discriminate].
  exact (make_png_command_injective check_string check_string 7 7 frame E E).
Defined.

(** ** Font files *)

Lemma string_length_append (a b : string) :
  String.length (a ++ b) = (String.length a + String.length b)%nat.
Proof. induction a as [|c a IH]; simpl; [reflexivity|now rewrite IH]. Qed.

Lemma substring_all (s : string) : substring 0 (String.length s) s = s.
Proof. induction s as [|c s IH]; simpl; [reflexivity|now rewrite IH]. Qed.

Lemma substring_skip_append (a b : string) (m : nat) :
  substring (String.length a) m (a ++ b) = substring 0 m b.
Proof. induction a as [|c a IH]; simpl; [reflexivity|exact IH]. Qed.

Lemma endswith_append (a b : string) : Str.endswith (a ++ b) b = true.
Proof.
  unfold Str.endswith. rewrite string_length_append.
  replace (String.length a + String.length b - String.length b)%nat
    with (String.length a) by lia.
  rewrite substring_skip_append, substring_all, String.eqb_refl.
  rewrite andb_true_r. apply Nat.leb_le. lia.
Qed.

Lemma lower_append (a b : string) :
  Str.lower (a ++ b) = (Str.lower a ++ Str.lower b)%string.
Proof. induction a as [|c a IH]; simpl; [reflexivity|now rewrite IH]. Qed.

Lemma has_font_extension_ttf (name : string) :
  has_font_extension (name ++ ".ttf") = true.
Proof.
  unfold has_font_extension, font_extensions. cbn [existsb].
  rewrite lower_append.
  change (Str.lower ".ttf") with ".ttf"%string.
  now rewrite endswith_append.
Qed.

(** The file name [_get_font_path] looks up. *)
Lemma get_font_path_file `{P : Pillow} (name : string) :
  _get_font_path name
  = let file := if has_font_extension name then name
                else (name ++ ".ttf")%string in
    if path_exists (fonts_path file) then Some (fonts_path file) else None.
Proof.
  unfold _get_font_path, has_font_extension.
  destruct (existsb _ font_extensions); reflexivity.
Qed.

(** A path [_get_font_path] returns exists, and is the path the fonts
    folder joined with a file name gives, where the file name is the one
    asked for, or that name with [.ttf] added; in both cases the file
    name ends, whatever its case, with one of [.ttf], [.otf], [.woff],
    [.woff2].  (Where the join leads is up to [pathlib]: for an absolute
    name it is outside the fonts folder.) *)
Theorem get_font_path_result `{P : Pillow} (name path : string) :
  _get_font_path name = Some path ->
  path_exists path = true
  /\ exists file,
       path = fonts_path file
       /\ (file = name \/ file = (name ++ ".ttf")%string)
       /\ has_font_extension file = true.
Proof.
  rewrite get_font_path_file. cbv zeta.
  destruct (has_font_extension name) eqn:Hext.
  - destruct (path_exists _) eqn:Hp; [|discriminate].
    intros [= <-]. split; [exact Hp|].
    exists name. auto.
  - destruct (path_exists _) eqn:Hp; [|discriminate].
    intros [= <-]. split; [exact Hp|].
    exists (name ++ ".ttf")%string. split; [reflexivity|].
    split; [now right|apply has_font_extension_ttf].
Qed.

Lemma get_font_path_result_witness :
  path_exists (Pillow := Grid.scalable) "fonts/grid.ttf" = true
  /\ exists file,
       "fonts/grid.ttf"%string = fonts_path (Pillow := Grid.scalable) file
       /\ (file = "grid"%string \/ file = ("grid" ++ ".ttf")%string)
       /\ has_font_extension file = true.
Proof.
  apply (get_font_path_result (P := Grid.scalable) "grid" "fonts/grid.ttf").
  reflexivity.
Defined.

(** A name with none of the four extensions is looked up as the same
    name with [.ttf]: the two names give the same path. *)
Theorem get_font_path_default_extension `{P : Pillow} (name : string) :
  has_font_extension name = false ->
  _get_font_path name = _get_font_path (name ++ ".ttf").
Proof.
  intros Hext. rewrite (get_font_path_file name),
                 (get_font_path_file (name ++ ".ttf")).
  now rewrite Hext, has_font_extension_ttf.
Qed.

Lemma get_font_path_default_extension_witness :
  _get_font_path (P := Grid.scalable) "grid"
  = _get_font_path (P := Grid.scalable) ("grid" ++ ".ttf").
Proof.
  apply (get_font_path_default_extension (P := Grid.scalable) "grid").
  reflexivity.
Defined.

(** ** What the search returns *)



Lemma find_descending (p : Z -> bool) (start : Z) (n k : nat) (s : Z) :
  find p (map (fun i => start - Z.of_nat i) (seq k n)) = Some s ->
  p s = true
  /\ s <= start - Z.of_nat k
  /\ forall s', In s' (map (fun i => start - Z.of_nat i) (seq k n)) ->
                s < s' -> p s' = false.
Proof.
  revert k. induction n as [|n IH]; intros k; cbn [seq map find];
    [discriminate|].
  destruct (p (start - Z.of_nat k)) eqn:Hp.
  - intros [= <-]. repeat split; [exact Hp|lia|].
    intros s' [<-|Hin] Hlt; [lia|].
    apply in_map_iff in Hin. destruct Hin as (i & <- & Hi).
    apply in_seq in Hi. lia.
  - intros Hfind. apply IH in Hfind. destruct Hfind as (Hs & Hle & Hrest).
    repeat split; [exact Hs|lia|].
    intros s' [<-|Hin] Hlt; [exact Hp|auto].
Qed.

(** The font the search returns is that of the largest size, above
    [MIN_FONT_SIZE] and up to the smaller side of the canvas, that it
    accepts; it is the built-in font when it accepts none of them. *)
Theorem get_optimal_font_largest_accepted `{P : Pillow} (draw : ImageDraw)
    (lines : list string) (max_width max_height : Z)
    (font_name : option string) :
  let fits := accepts (fontmode draw) lines max_width max_height font_name in
  (exists size,
     MIN_FONT_SIZE < size <= Z.min max_height max_width
     /\ fits size = true
     /\ (forall larger,
           size < larger <= Z.min max_height max_width -> fits larger = false)
     /\ get_optimal_font draw lines max_width max_height font_name
        = Ok (font_at font_name size))
  \/ ((forall size,
         MIN_FONT_SIZE < size <= Z.min max_height max_width -> fits size = false)
      /\ get_optimal_font draw lines max_width max_height font_name
         = Ok load_default).
Proof.
  intros fits. unfold get_optimal_font.
  rewrite search_sizes_first_accepted. unfold first_accepted. fold fits.
  destruct (find fits (candidate_sizes max_width max_height)) as [size|] eqn:E.
  - left. exists size.
    pose proof (find_some _ _ E) as [Hin _].
    apply in_candidate_sizes in Hin.
    unfold candidate_sizes, range_down in E.
    apply find_descending in E. destruct E as (Hfit & _ & Hlarger).
    repeat split; try assumption; try lia.
    intros larger Hl. apply Hlarger; [|lia].
    change (In larger (candidate_sizes max_width max_height)).
    apply in_candidate_sizes. lia.
  - right. split; [|reflexivity].
    intros size Hs. apply (find_none _ _ E).
    apply in_candidate_sizes. exact Hs.
Qed.

(** On a canvas whose smaller side is at most [MIN_FONT_SIZE] the search
    tries no size and measures nothing: it returns the built-in font,
    whatever the text and the font asked for. *)
Theorem get_optimal_font_small_canvas `{P : Pillow} (draw : ImageDraw)
    (lines : list string) (max_width max_height : Z)
    (font_name : option string) :
  Z.min max_height max_width <= MIN_FONT_SIZE ->
  candidate_sizes max_width max_height = []
  /\ get_optimal_font draw lines max_width max_height font_name
     = Ok load_default.
Proof.
  intros Hsmall.
  assert (E : candidate_sizes max_width max_height = []).
  { unfold candidate_sizes, range_down.
    replace (Z.to_nat (Z.min max_height max_width - MIN_FONT_SIZE)) with 0%nat
      by lia.
    reflexivity. }
  split; [exact E|].
  unfold get_optimal_font. now rewrite E.
Qed.

Lemma get_optimal_font_small_canvas_witness :
  candidate_sizes 64 4 = []
  /\ get_optimal_font (P := Grid.scalable)
       (render_draw (P := Grid.scalable) 64 4 true) ["HI"%string] 64 4
       (Some "grid"%string)
     = Ok (load_default (Pillow := Grid.scalable)).
Proof.
  apply (get_optimal_font_small_canvas (P := Grid.scalable)).
  vm_compute. discriminate.
Defined.

(** ** Rendering without a font file *)

Lemma selected_font_builtin `{P : Pillow} (text : string) (width height : Z)
    (antialias : bool) (font_size : option Z) (font_name : option string) :
  (forall size, try_custom_font font_name size = None) ->
  selected_font text width height antialias font_size font_name
  = Ok load_default.
Proof.
  intros Hnone.
  assert (Hat : forall size, font_at font_name size = load_default).
  { intros size. unfold font_at. now rewrite Hnone. }
  unfold selected_font. destruct font_size as [size|].
  - now rewrite get_fixed_font_ok, Hat.
  - unfold get_optimal_font. rewrite search_sizes_first_accepted.
    destruct (first_accepted _ _ _ _ _ _); [now rewrite Hat|reflexivity].
Qed.

(** When no font file can be used (no name is given, the file is not in
    the fonts folder, or it loads at no size) the text is rendered with
    the built-in font whatever [font_size] says: the result is that of
    the call with neither a size nor a name. *)
Theorem render_without_font_ignores_size `{P : Pillow} (text : string)
    (width height : Z) (antialias : bool) (font_size : option Z)
    (font_name : option string) :
  (forall size, try_custom_font font_name size = None) ->
  render_text_to_png text width height antialias font_size font_name
  = render_text_to_png text width height antialias None None.
Proof.
  intros Hnone.
  rewrite (render_text_to_png_steps text width height antialias font_size font_name),
          (render_text_to_png_steps text width height antialias None None).
  rewrite (selected_font_builtin text width height antialias font_size font_name Hnone).
  rewrite (selected_font_builtin text width height antialias None None)
    by reflexivity.
  reflexivity.
Qed.

Lemma render_without_font_ignores_size_witness :
  render_text_to_png (P := Grid.scalable) "HI" 32 32 true (Some 20)
    (Some "missing"%string)
  = render_text_to_png (P := Grid.scalable) "HI" 32 32 true None None.
Proof.
  apply (render_without_font_ignores_size (P := Grid.scalable)).
  intros size. reflexivity.
Defined.

(** ** What leaves [render_text_to_png] *)

Section Escapes.

Context `{P : Pillow}.
Variable f : font.

Lemma measure_heights_length (draw : ImageDraw) (lines : list string) :
  forall t acc T heights,
    measure_heights draw f lines t acc = Ok (T, heights) ->
    List.length heights = (List.length acc + List.length lines)%nat
    /\ measured f (fontmode draw) lines.
Proof.
  induction lines as [|line rest IH]; intros t acc T heights;
    cbn [measure_heights].
  - intros [= <- <-]. split; [simpl; lia|]. intros line [].
  - destruct (textbbox (fontmode draw) f line) as [b|e] eqn:Eb; cbn [bind];
      [|discriminate].
    intros Hrest. apply IH in Hrest. destruct Hrest as [Hlen Hm].
    split.
    + rewrite Hlen, length_app. simpl. lia.
    + intros l [<-|Hl]; [eauto|auto].
Qed.



End Escapes.



(** [render_text_to_png] returns only when every line could be measured
    with the selected font. *)
Theorem render_returns_only_if_measured `{P : Pillow} (text : string)
    (width height : Z) (antialias : bool) (font_size : option Z)
    (font_name : option string) (png : bytes) :
  render_text_to_png text width height antialias font_size font_name = Ok png ->
  exists f,
    selected_font text width height antialias font_size font_name = Ok f
    /\ measured f (render_mode antialias) (render_lines text).
Proof.
  rewrite render_text_to_png_steps.
  destruct ((width <? 0) || (height <? 0)); [discriminate|].
  destruct (selected_font _ _ _ _ _ _) as [f|e]; cbn [bind]; [|discriminate].
  destruct (measure_heights _ f _ 0 []) as [[T heights]|e] eqn:Em;
    cbn [bind]; [|discriminate].
  intros _. exists f. split; [reflexivity|].
  apply measure_heights_length in Em. apply Em.
Qed.

Lemma render_returns_only_if_measured_witness :
  exists f,
    selected_font (P := Grid.scalable) "HI" 32 32 true None (Some "grid"%string)
    = Ok f
    /\ measured (P := Grid.scalable) f (render_mode true) (render_lines "HI").
Proof.
  destruct (render_text_to_png (P := Grid.scalable) "HI" 32 32 true None
              (Some "grid"%string)) as [png|e] eqn:E;
    [|vm_compute in E; discriminate].
  exact (render_returns_only_if_measured (P := Grid.scalable) "HI" 32 32 true
           None (Some "grid"%string) png E).
Defined.

(** ** The lines of a text *)

Lemma split_newline_cons (s : string) :
  exists first others, Str.split_newline s = first :: others.
Proof.
  induction s as [|c s (first & others & IH)]; cbn [Str.split_newline];
    [eauto|].
  destruct (Ascii.eqb c Str.newline); [eauto|]. rewrite IH. eauto.
Qed.

Lemma concat_cons_cons (sep x y : string) (l : list string) :
  String.concat sep (x :: y :: l)
  = (x ++ sep ++ String.concat sep (y :: l))%string.
Proof. reflexivity. Qed.

Lemma concat_split_newline (s : string) :
  String.concat (String Str.newline EmptyString) (Str.split_newline s) = s.
Proof.
  induction s as [|c s IH]; [reflexivity|].
  cbn [Str.split_newline].
  destruct (split_newline_cons s) as (first & others & E).
  rewrite E in *.
  destruct (Ascii.eqb_spec c Str.newline) as [->|Hc].
  - rewrite concat_cons_cons, IH. reflexivity.
  - destruct others as [|second others].
    + cbn [String.concat] in *. now rewrite IH.
    + rewrite concat_cons_cons in *. cbn [append] in *. now rewrite IH.
Qed.

Lemma split_newline_no_newline (s : string) :
  Forall (fun line => Str.has_newline line = false) (Str.split_newline s).
Proof.
  induction s as [|c s IH]; cbn [Str.split_newline].
  - constructor; [reflexivity|constructor].
  - destruct (split_newline_cons s) as (first & others & E).
    rewrite E in *. inversion IH as [|? ? Hfirst Hothers]; subst.
    destruct (Ascii.eqb c Str.newline) eqn:Ec.
    + constructor; [reflexivity|]. constructor; assumption.
    + constructor; [|assumption]. cbn [Str.has_newline]. now rewrite Ec.
Qed.

(** No text is lost when it is cut into lines: the lines joined by
    newlines are the text again, there is at least one line, and no line
    contains a newline (so that each is measured and drawn as a single
    line). *)
Theorem render_lines_round_trip (text : string) :
  String.concat (String Str.newline EmptyString) (render_lines text) = text
  /\ render_lines text <> []
  /\ Forall (fun line => Str.has_newline line = false) (render_lines text).
Proof.
  unfold render_lines. destruct (Str.has_newline text) eqn:Hn.
  - split; [apply concat_split_newline|]. split.
    + destruct (split_newline_cons text) as (first & others & ->). discriminate.
    + apply split_newline_no_newline.
  - split; [reflexivity|]. split; [discriminate|].
    constructor; [exact Hn|constructor].
Qed.

(** ** The font size entity *)

Lemma floor_within (q : Q) (a b : Z) :
  Qle_bool (inject_Z a) q = true -> Qle_bool q (inject_Z b) = true ->
  a <= Qfloor q <= b.
Proof.
  intros Ha Hb. apply Qle_bool_iff in Ha, Hb.
  apply Qfloor_resp_le in Ha, Hb. rewrite Qfloor_Z in Ha, Hb. lia.
Qed.

Lemma nonnegative_above_minimum (q : Q) :
  Qle_bool (inject_Z Number._attr_native_min_value) q = true ->
  Qle_bool (inject_Z 0) q = true.
Proof.
  intros Ha. apply Qle_bool_iff in Ha. apply Qle_bool_iff.
  apply Qle_trans with (inject_Z Number._attr_native_min_value); [|exact Ha].
  rewrite <- Zle_Qle. unfold Number._attr_native_min_value. lia.
Qed.

Lemma set_native_value_cases (self : Number.iPIXELFontSize)
    (value : Number.float) :
  exists self',
    Number.async_set_native_value self value = Ok self'
    /\ Number.native_value self'
       = match value with
         | Number.Finite q =>
             if Qle_bool (inject_Z 4) q && Qle_bool q (inject_Z 64)
             then Some (Qfloor q)
             else Number.native_value self
         | _ => Number.native_value self
         end.
Proof.
  unfold Number.async_set_native_value.
  destruct value as [q|negative|]; cbn [Number.int_le_float Number.float_le_int].
  - change Number._attr_native_min_value with 4 at 1.
    change Number._attr_native_max_value with 64.
    destruct (Qle_bool (inject_Z 4) q) eqn:Ha; cbn [andb]; [|eauto].
    destruct (Qle_bool q (inject_Z 64)) eqn:Hb; [|eauto].
    cbn [Number.int_of_float bind].
    rewrite (nonnegative_above_minimum q Ha). eauto.
  - destruct negative; cbn [negb andb]; eauto.
  - cbn [andb]. eauto.
Qed.

(** One call of [async_set_native_value] never raises.  A finite value
    between 4 and 64 is stored rounded down; any other value, an infinity
    or a NaN leaves the setting as it was. *)
Theorem set_native_value_result (self : Number.iPIXELFontSize)
    (value : Number.float) :
  exists self',
    Number.async_set_native_value self value = Ok self'
    /\ Number.native_value self'
       = match value with
         | Number.Finite q =>
             if Qle_bool (inject_Z 4) q && Qle_bool q (inject_Z 64)
             then Some (Qfloor q)
             else Number.native_value self
         | _ => Number.native_value self
         end.
Proof. apply set_native_value_cases. Qed.

Lemma set_native_value_step (self : Number.iPIXELFontSize)
    (value : Number.float) :
  Number.within_bounds (Number.native_value self) ->
  exists self',
    Number.async_set_native_value self value = Ok self'
    /\ Number.within_bounds (Number.native_value self')
    /\ (Number.native_value self <> None -> Number.native_value self' <> None).
Proof.
  intros Hin.
  destruct (set_native_value_cases self value) as (self' & Hset & Hval).
  exists self'. split; [exact Hset|]. rewrite Hval.
  destruct value as [q|negative|]; auto.
  destruct (Qle_bool (inject_Z 4) q) eqn:Ha; cbn [andb]; auto.
  destruct (Qle_bool q (inject_Z 64)) eqn:Hb; auto.
  split; [|discriminate].
  cbn [Number.within_bounds].
  apply (floor_within q 4 64); assumption.
Qed.

Lemma set_all_steps (values : list Number.float) :
  forall self,
    Number.within_bounds (Number.native_value self) ->
    exists self',
      Number.set_all self values = Ok self'
      /\ Number.within_bounds (Number.native_value self')
      /\ (Number.native_value self <> None -> Number.native_value self' <> None).
Proof.
  induction values as [|value rest IH]; intros self Hin; cbn [Number.set_all].
  - exists self. auto.
  - destruct (set_native_value_step self value Hin) as (self1 & -> & Hin1 & Hkeep1).
    cbn [bind].
    destruct (IH self1 Hin1) as (self' & Hset & Hin' & Hkeep').
    exists self'. auto.
Qed.

(** Whatever values the entity is given, and in whatever order, no call
    raises and the size it holds is either none (auto-sizing) or an
    integer between 4 and 64. *)
Theorem font_size_stays_within_bounds (address name : string)
    (values : list Number.float) :
  exists self,
    Number.set_all (Number.__init__ address name) values = Ok self
    /\ Number.within_bounds (Number.native_value self).
Proof.
  destruct (set_all_steps values (Number.__init__ address name) I)
    as (self & Hset & Hin & _).
  eauto.
Qed.

(** Once the entity holds a size, no call brings auto-sizing back: after
    any further calls it still holds a size, between 4 and 64. *)
Theorem font_size_never_back_to_auto (self self' : Number.iPIXELFontSize)
    (values : list Number.float) (n : Z) :
  Number.native_value self = Some n ->
  4 <= n <= 64 ->
  Number.set_all self values = Ok self' ->
  exists m, Number.native_value self' = Some m /\ 4 <= m <= 64.
Proof.
  intros Hn Hbounds Hset.
  destruct (set_all_steps values self) as (self1 & Hset1 & Hin & Hkeep).
  { rewrite Hn. exact Hbounds. }
  rewrite Hset in Hset1. injection Hset1 as <-.
  destruct (Number.native_value self') as [m|] eqn:Em.
  - exists m. split; [reflexivity|exact Hin].
  - exfalso. apply Hkeep; [rewrite Hn; discriminate|reflexivity].
Qed.

Lemma font_size_never_back_to_auto_witness :
  exists m,
    Number.native_value
      {| Number._address := "AA:BB"; Number._name := "sign";
         Number._attr_name := "sign Font Size";
         Number._attr_unique_id := "AA:BB_font_size";
         Number._attr_native_value := Some 7 |} = Some m
    /\ 4 <= m <= 64.
Proof.
  apply (font_size_never_back_to_auto
           {| Number._address := "AA:BB"; Number._name := "sign";
              Number._attr_name := "sign Font Size";
              Number._attr_unique_id := "AA:BB_font_size";
              Number._attr_native_value := Some 12 |}
           _
           [Number.NaN; Number.Finite (200 # 1); Number.Finite (15 # 2)] 12).
  - reflexivity.
  - lia.
  - reflexivity.
Defined.

(** ** The font selection entity *)

Lemma in_insert (s x : string) (l : list string) :
  In x (FontSelect.insert s l) <-> x = s \/ In x l.
Proof.
  induction l as [|y l IH]; cbn [FontSelect.insert].
  - simpl. intuition congruence.
  - destruct (String.leb s y); simpl in *; intuition congruence.
Qed.

Lemma in_sorted (x : string) (l : list string) :
  In x (FontSelect.sorted l) <-> In x l.
Proof.
  induction l as [|y l IH]; cbn [FontSelect.sorted]; [reflexivity|].
  rewrite in_insert, IH. simpl. intuition congruence.
Qed.

Lemma contains_iff (l : list string) (s : string) :
  FontSelect.contains l s = true <-> In s l.
Proof.
  unfold FontSelect.contains. rewrite existsb_exists. split.
  - intros (x & Hx & E). apply String.eqb_eq in E. now subst.
  - intros Hs. exists s. split; [exact Hs|apply String.eqb_refl].
Qed.

Lemma in_available_fonts (folder : FontSelect.fonts_folder) (x : string) :
  In x (FontSelect._get_available_fonts folder)
  <-> x = "Default"%string
      \/ (FontSelect.folder_exists folder = true
          /\ (In x (FontSelect.glob_ttf folder)
              \/ In x (FontSelect.glob_otf folder))).
Proof.
  unfold FontSelect._get_available_fonts. rewrite in_sorted.
  destruct (FontSelect.folder_exists folder).
  - repeat rewrite in_app_iff. simpl. intuition congruence.
  - simpl. intuition congruence.
Qed.

(** Whatever the fonts folder holds, creating the entity never raises,
    it starts at the option ["Default"], and its options are ["Default"]
    and the [.ttf] and [.otf] files found. *)
Theorem font_select_starts_at_default (folder : FontSelect.fonts_folder)
    (address name : string) :
  exists self,
    FontSelect.__init__ folder address name = Ok self
    /\ FontSelect.current_option self = "Default"%string
    /\ forall x,
         In x (FontSelect._attr_options self)
         <-> x = "Default"%string
             \/ (FontSelect.folder_exists folder = true
                 /\ (In x (FontSelect.glob_ttf folder)
                     \/ In x (FontSelect.glob_otf folder))).
Proof.
  unfold FontSelect.__init__.
  assert (Hd : FontSelect.contains (FontSelect._get_available_fonts folder)
                 "Default" = true).
  { apply contains_iff, in_available_fonts. now left. }
  rewrite Hd. cbn [bind]. eexists. split; [reflexivity|].
  split; [reflexivity|].
  intros x. cbn [FontSelect._attr_options]. apply in_available_fonts.
Qed.

Lemma last_cons_default {A} (x : A) (l : list A) (d d' : A) :
  last (x :: l) d = last (x :: l) d'.
Proof.
  revert x. induction l as [|y l IH]; intros x; [reflexivity|].
  change (last (y :: l) d = last (y :: l) d'). apply IH.
Qed.

Lemma select_all_last_valid (choices : list string) :
  forall self,
    FontSelect._attr_options (FontSelect.select_all self choices)
    = FontSelect._attr_options self
    /\ FontSelect.current_option (FontSelect.select_all self choices)
       = last (filter (FontSelect.contains (FontSelect._attr_options self)) choices)
              (FontSelect.current_option self).
Proof.
  unfold FontSelect.select_all.
  induction choices as [|choice rest IH]; intros self; cbn [fold_left filter].
  - split; reflexivity.
  - destruct (IH (FontSelect.async_select_option self choice)) as [Hopt Hcur].
    rewrite Hopt, Hcur. clear Hopt Hcur IH.
    unfold FontSelect.async_select_option.
    destruct (FontSelect.contains (FontSelect._attr_options self) choice) eqn:Hc.
    + cbn [FontSelect._attr_options FontSelect.current_option
           FontSelect._attr_current_option].
      split; [reflexivity|].
      destruct (filter _ rest) as [|c valid]; [reflexivity|].
      change (last (choice :: c :: valid) (FontSelect.current_option self))
        with (last (c :: valid) (FontSelect.current_option self)).
      apply last_cons_default.
    + split; reflexivity.
Qed.

(** After any choices, the options are those the entity started with and
    the current option is one of them: the last choice that was an option,
    or the one it held when no choice was. *)
Theorem font_select_current_is_an_option (self : FontSelect.iPIXELFontSelect)
    (choices : list string) :
  In (FontSelect.current_option self) (FontSelect._attr_options self) ->
  let after := FontSelect.select_all self choices in
  FontSelect._attr_options after = FontSelect._attr_options self
  /\ In (FontSelect.current_option after) (FontSelect._attr_options after)
  /\ FontSelect.current_option after
     = last (filter (FontSelect.contains (FontSelect._attr_options self)) choices)
            (FontSelect.current_option self).
Proof.
  intros Hin after.
  destruct (select_all_last_valid choices self) as [Hopt Hcur].
  fold after in Hopt, Hcur.
  split; [exact Hopt|]. split; [|exact Hcur].
  rewrite Hopt, Hcur.
  set (valid := filter _ choices).
  assert (Hvalid : forall c, In c valid -> In c (FontSelect._attr_options self)).
  { intros c Hc. apply filter_In in Hc. apply contains_iff, Hc. }
  clearbody valid.
  induction valid as [|c valid IHv]; [exact Hin|].
  destruct valid as [|c' valid].
  - apply Hvalid. now left.
  - apply IHv. intros c0 Hc0. apply Hvalid. now right.
Qed.

Lemma font_select_current_is_an_option_witness :
  exists self,
    FontSelect.__init__ grid_folder "AA:BB" "sign" = Ok self
    /\ FontSelect.current_option
         (FontSelect.select_all self ["nope"; "grid.ttf"; "other"]%string)
       = "grid.ttf"%string.
Proof.
  destruct (FontSelect.__init__ grid_folder "AA:BB" "sign") as [self|e] eqn:E;
    [|vm_compute in E; discriminate].
  exists self. split; [reflexivity|].
  destruct (font_select_current_is_an_option self
              ["nope"; "grid.ttf"; "other"]%string) as (_ & _ & Hlast).
  - vm_compute in E. injection E as <-. vm_compute. tauto.
  - rewrite Hlast. vm_compute in E. injection E as <-. reflexivity.
Defined.

(** ** Discovery *)

Section Discovered.

Variable prefix : string.

Lemma fold_detections (detections : list (Scanner.BLEDevice * Scanner.AdvertisementData)) :
  forall devices,
    fold_left (Scanner.detection_callback prefix) detections devices
    = devices
        ++ flat_map info_of
             (filter (fun detection => Scanner.is_ipixel prefix (fst detection))
                     detections).
Proof.
  induction detections as [|[device adv] rest IH]; intros devices;
    cbn [fold_left filter fst].
  - cbn [flat_map]. now rewrite app_nil_r.
  - rewrite IH. unfold Scanner.detection_callback.
    destruct (Scanner.is_ipixel prefix device) eqn:Hi; [|reflexivity].
    cbn [flat_map]. unfold info_of at 2. cbn [fst snd].
    destruct (Scanner.name device) as [device_name|].
    + now rewrite <- app_assoc.
    + reflexivity.
Qed.

Lemma is_ipixel_name (device : Scanner.BLEDevice) :
  Scanner.is_ipixel prefix device = true ->
  exists device_name,
    Scanner.name device = Some device_name
    /\ device_name <> ""%string
    /\ String.prefix prefix device_name = true.
Proof.
  unfold Scanner.is_ipixel.
  destruct (Scanner.name device) as [[|c rest]|]; try discriminate.
  intros Hp. exists (String c rest). repeat split; [discriminate|exact Hp].
Qed.

End Discovered.

(** The result of a scan, from the outcomes of starting and stopping the
    scanner.  When both succeed it is the list of the detections whose
    name is not empty and starts with the prefix, in the order they were
    reported and as often as they were reported.  A [BleakError] from
    either gives the empty list, also when devices had been found; any
    other exception leaves the function. *)
Theorem discover_result (prefix : string) (d : Bleak.device)
    (detections : list (Scanner.BLEDevice * Scanner.AdvertisementData)) :
  fst (Scanner.discover_ipixel_devices prefix d detections)
  = match outcome_at d 0, outcome_at d 1 with
    | Bleak.Done, Bleak.Done =>
        Ok (flat_map info_of
              (filter (fun detection => Scanner.is_ipixel prefix (fst detection))
                      detections))
    | Bleak.Done, Bleak.BleakFails => Ok []
    | Bleak.Done, failed => Raise (Bleak.raised failed)
    | Bleak.BleakFails, _ => Ok []
    | failed, _ => Raise (Bleak.raised failed)
    end.
Proof.
  unfold Scanner.discover_ipixel_devices, outcome_at, Bleak.await.
  rewrite fold_detections. cbn [app].
  destruct d as [[|started [|stopped rest]] calls];
    cbn [Bleak.pending Bleak.performed nth fst];
    try reflexivity;
    destruct started; try reflexivity;
    destruct stopped; reflexivity.
Qed.

(** Every device a scan returns was detected, has a name that is not
    empty and starts with the prefix, and carries the address and the
    signal strength of that detection. *)
Theorem discovered_devices_have_the_prefix (prefix : string)
    (d d' : Bleak.device)
    (detections : list (Scanner.BLEDevice * Scanner.AdvertisementData))
    (devices : list Scanner.device_info) :
  Scanner.discover_ipixel_devices prefix d detections = (Ok devices, d') ->
  Forall (fun info =>
            Scanner.info_name info <> ""%string
            /\ String.prefix prefix (Scanner.info_name info) = true
            /\ exists device adv,
                 In (device, adv) detections
                 /\ Scanner.name device = Some (Scanner.info_name info)
                 /\ Scanner.address device = Scanner.info_address info
                 /\ Scanner.rssi adv = Scanner.info_rssi info)
         devices.
Proof.
  intros Hrun.
  assert (Hin : forall info, In info devices ->
                  In info (flat_map info_of
                    (filter (fun detection =>
                               Scanner.is_ipixel prefix (fst detection))
                            detections))).
  { pose proof (discover_result prefix d detections) as Hr.
    rewrite Hrun in Hr. cbn [fst] in Hr.
    destruct (outcome_at d 0); try discriminate;
      try (injection Hr as ->; intros info []).
    destruct (outcome_at d 1); try discriminate;
      try (injection Hr as ->; intros info []).
    injection Hr as ->. auto. }
  apply Forall_forall. intros info Hinfo. apply Hin in Hinfo.
  apply in_flat_map in Hinfo. destruct Hinfo as ([device adv] & Hdet & Hof).
  apply filter_In in Hdet. destruct Hdet as [Hdet Hipixel]. cbn [fst] in Hipixel.
  apply is_ipixel_name in Hipixel.
  destruct Hipixel as (device_name & Hname & Hnonempty & Hprefix).
  unfold info_of in Hof. cbn [fst snd] in Hof. rewrite Hname in Hof.
  destruct Hof as [<-|[]]. cbn [Scanner.info_name Scanner.info_address
                               Scanner.info_rssi].
  split; [exact Hnonempty|]. split; [exact Hprefix|].
  exists device, adv. auto.
Qed.

Lemma discovered_devices_have_the_prefix_witness :
  Forall (fun info =>
            Scanner.info_name info <> ""%string
            /\ String.prefix "LED_BLE" (Scanner.info_name info) = true
            /\ exists device adv,
                 In (device, adv)
                    [({| Scanner.address := "AA:BB";
                         Scanner.name := Some "LED_BLE_1"%string |},
                      {| Scanner.rssi := -60 |});
                     ({| Scanner.address := "CC:DD"; Scanner.name := None |},
                      {| Scanner.rssi := -70 |})]
                 /\ Scanner.name device = Some (Scanner.info_name info)
                 /\ Scanner.address device = Scanner.info_address info
                 /\ Scanner.rssi adv = Scanner.info_rssi info)
         [{| Scanner.info_address := "AA:BB"; Scanner.info_name := "LED_BLE_1";
             Scanner.info_rssi := -60 |}].
Proof.
  apply (discovered_devices_have_the_prefix "LED_BLE" (device_with [] [])
           (device_with [] [Bleak.scanner_start_call; Bleak.scanner_stop_call])).
  reflexivity.
Defined.

(** ** The Bluetooth client *)

Lemma connect_has_client (self : Client.BluetoothClient)
    (handler : Client.callback) (d : Bleak.device) :
  Client.has_client (snd (fst (Client.connect self handler d))) = true.
Proof.
  unfold Client.connect, Bleak.await.
  destruct (Bleak.pending d) as [|o1 [|o2 rest]];
    cbn [Bleak.failure Bleak.pending Bleak.performed];
    try reflexivity;
    destruct o1; try reflexivity; destruct o2; reflexivity.
Qed.

Lemma disconnect_well_formed (self : Client.BluetoothClient) (d : Bleak.device) :
  Client.well_formed self ->
  Client._connected (snd (fst (Client.disconnect self d))) = false.
Proof.
  intros Hwf. unfold Client.disconnect, Bleak.await.
  destruct (Client.has_client self) eqn:Hc; cbn [andb].
  - destruct (Client._connected self) eqn:Hcon.
    + destruct (Bleak.pending d) as [|o1 [|o2 rest]];
        cbn [Bleak.failure Bleak.pending Bleak.performed];
        try reflexivity;
        destruct o1; try reflexivity; destruct o2; reflexivity.
    + cbn [fst snd]. exact Hcon.
  - cbn [fst snd]. destruct (Client._connected self) eqn:Hcon; [|reflexivity].
    specialize (Hwf Hcon). congruence.
Qed.

Lemma reachable_well_formed (self : Client.BluetoothClient) :
  reachable self -> Client.well_formed self.
Proof.
  induction 1 as [address|self handler d _ _|self d _ IH].
  - intros Hcon. discriminate.
  - intros _. apply connect_has_client.
  - intros Hcon. rewrite (disconnect_well_formed self d IH) in Hcon.
    discriminate.
Qed.

(** However a client was used before, it is marked connected only when
    it has a [BleakClient] to talk to. *)
Theorem client_connected_has_client (self : Client.BluetoothClient) :
  reachable self ->
  Client._connected self = true -> Client.has_client self = true.
Proof. intros Hr. apply (reachable_well_formed self Hr). Qed.

Lemma client_connected_has_client_witness :
  Client.has_client
    (snd (fst (Client.connect (Client.__init__ "AA:BB") "on_notify"%string
                 (device_with [] [])))) = true.
Proof.
  apply (client_connected_has_client
           (snd (fst (Client.connect (Client.__init__ "AA:BB") "on_notify"%string
                        (device_with [] []))))).
  - apply reachable_connect, reachable_init.
  - reflexivity.
Defined.

(** After [disconnect], whatever the device answered and whether or not
    [disconnect] raised, the client is marked disconnected, and
    [send_command] raises [iPIXELConnectionError] without a call on the
    device. *)
Theorem send_command_after_disconnect (self : Client.BluetoothClient)
    (d d' : Bleak.device) (command : bytes) :
  reachable self ->
  let after := snd (fst (Client.disconnect self d)) in
  Client._connected after = false
  /\ Client.send_command after command d'
     = (Raise Client.iPIXELConnectionError, d').
Proof.
  intros Hr after.
  assert (Hcon : Client._connected after = false).
  { apply disconnect_well_formed, reachable_well_formed, Hr. }
  split; [exact Hcon|].
  unfold Client.send_command. now rewrite Hcon.
Qed.

Lemma send_command_after_disconnect_witness :
  let connected :=
    snd (fst (Client.connect (Client.__init__ "AA:BB") "on_notify"%string
                (device_with [] []))) in
  let after :=
    snd (fst (Client.disconnect connected
                (device_with [Bleak.OtherFails "OSError"%string] []))) in
  Client._connected after = false
  /\ Client.send_command after check_string (device_with [] [])
     = (Raise Client.iPIXELConnectionError, device_with [] []).
Proof.
  apply (send_command_after_disconnect
           (snd (fst (Client.connect (Client.__init__ "AA:BB") "on_notify"%string
                        (device_with [] []))))).
  apply reachable_connect, reachable_init.
Defined.

(** What [send_command] does on the device when the client is connected:
    it starts notifications; when that fails it makes no other call; when
    it succeeds it writes the command, waits for an answer if the write
    succeeded, and stops notifications last, whatever failed in between.
    It returns [True] only when all four calls were made and none failed,
    a wait that timed out apart. *)
Theorem send_command_calls (self : Client.BluetoothClient) (command : bytes)
    (d : Bleak.device) :
  Client._connected self = true ->
  Client.has_client self = true ->
  let result := fst (Client.send_command self command d) in
  let after := snd (Client.send_command self command d) in
  let write := Bleak.write_gatt_char_call command in
  (Bleak.failure (outcome_at d 0) = true ->
   Bleak.performed after = Bleak.performed d ++ [Bleak.start_notify_call])
  /\ (Bleak.failure (outcome_at d 0) = false ->
      Bleak.failure (outcome_at d 1) = true ->
      Bleak.performed after
      = Bleak.performed d
          ++ [Bleak.start_notify_call; write; Bleak.stop_notify_call])
  /\ (Bleak.failure (outcome_at d 0) = false ->
      Bleak.failure (outcome_at d 1) = false ->
      Bleak.performed after
      = Bleak.performed d
          ++ [Bleak.start_notify_call; write; Bleak.wait_response_call;
              Bleak.stop_notify_call])
  /\ (result = Ok true ->
      Bleak.failure (outcome_at d 0) = false
      /\ Bleak.failure (outcome_at d 1) = false
      /\ (outcome_at d 2 = Bleak.Done \/ outcome_at d 2 = Bleak.TimedOut)
      /\ Bleak.failure (outcome_at d 3) = false).
Proof.
  intros Hcon Hclient result after write.
  subst result after write.
  unfold Client.send_command, Client.write_and_wait, Bleak.await, outcome_at.
  rewrite Hcon, Hclient. cbn [negb orb].
  destruct d as [[|o1 [|o2 [|o3 [|o4 rest]]]] calls];
    cbn [Bleak.pending Bleak.performed nth Bleak.failure fst snd];
    repeat match goal with
           | o : Bleak.outcome |- _ => destruct o
           end;
    cbn [Bleak.pending Bleak.performed nth Bleak.failure fst snd];
    repeat rewrite <- app_assoc; cbn [app];
    repeat split; intros; try discriminate; try reflexivity; auto.
Qed.

Lemma send_command_calls_witness :
  let connected :=
    snd (fst (Client.connect (Client.__init__ "AA:BB") "on_notify"%string
                (device_with [] []))) in
  Bleak.performed
    (snd (Client.send_command connected check_string
            (device_with [Bleak.Done; Bleak.BleakFails] [])))
  = [Bleak.start_notify_call; Bleak.write_gatt_char_call check_string;
     Bleak.stop_notify_call].
Proof.
  cbv zeta.
  destruct (send_command_calls
              (snd (fst (Client.connect (Client.__init__ "AA:BB") "on_notify"%string
                           (device_with [] []))))
              check_string (device_with [Bleak.Done; Bleak.BleakFails] []))
    as (_ & Hwrite & _); [reflexivity|reflexivity|].
  apply Hwrite; reflexivity.
Defined.

(** Every outcome of [connect], from the outcomes of connecting and of
    starting notifications: it returns [True] when both succeed; a
    timeout of either raises [iPIXELTimeoutError], a [BleakError]
    [iPIXELConnectionError], and any other exception is let through.
    Notifications are not started when connecting failed.  The client is
    marked connected as soon as connecting succeeded, also when starting
    notifications then fails and [connect] raises. *)
Theorem connect_result (self : Client.BluetoothClient)
    (handler : Client.callback) (d : Bleak.device) :
  let result := fst (fst (Client.connect self handler d)) in
  let after := snd (fst (Client.connect self handler d)) in
  let calls := Bleak.performed (snd (Client.connect self handler d)) in
  let attempt := Bleak.connect_call (Client._address self) in
  let failed :=
    if Bleak.failure (outcome_at d 0) then outcome_at d 0 else outcome_at d 1 in
  result = match failed with
           | Bleak.Done => Ok true
           | Bleak.TimedOut => Raise Client.iPIXELTimeoutError
           | Bleak.BleakFails => Raise Client.iPIXELConnectionError
           | Bleak.OtherFails e => Raise e
           end
  /\ Client._client after = Some (Client._address self)
  /\ Client._connected after
     = (negb (Bleak.failure (outcome_at d 0)) || Client._connected self)%bool
  /\ calls
     = Bleak.performed d
         ++ (if Bleak.failure (outcome_at d 0) then [attempt]
             else [attempt; Bleak.start_notify_call]).
Proof.
  unfold Client.connect, Bleak.await, outcome_at.
  destruct d as [[|o1 [|o2 rest]] calls];
    cbn [Bleak.pending Bleak.performed nth Bleak.failure fst snd];
    repeat match goal with
           | o : Bleak.outcome |- _ => destruct o
           end;
    cbn [Bleak.pending Bleak.performed nth Bleak.failure fst snd negb orb
         Client._client Client._connected Client._address
         Client.connect_error Bleak.raised];
    repeat rewrite <- app_assoc; cbn [app];
    repeat split; reflexivity.
Qed.

Lemma outcome_of_bleak_only (d : Bleak.device) (n : nat) :
  fails_as_bleak d ->
  outcome_at d n = Bleak.Done \/ outcome_at d n = Bleak.BleakFails.
Proof.
  unfold fails_as_bleak, outcome_at. intros Hall.
  destruct (nth_in_or_default n (Bleak.pending d) Bleak.Done) as [Hin| ->];
    [|now left].
  rewrite Forall_forall in Hall. exact (Hall _ Hin).
Qed.

(** On a device that fails, when it does, with a [BleakError] only, no
    [BleakError] leaves the client: [connect] returns [True] or raises
    [iPIXELConnectionError], [send_command] on a connected client returns
    [True] or [False], and [disconnect] returns. *)
Theorem bleak_errors_do_not_escape (self : Client.BluetoothClient)
    (handler : Client.callback) (command : bytes) (d : Bleak.device) :
  fails_as_bleak d ->
  (fst (fst (Client.connect self handler d)) = Ok true
   \/ fst (fst (Client.connect self handler d))
      = Raise Client.iPIXELConnectionError)
  /\ (Client._connected self = true ->
      Client.has_client self = true ->
      exists sent, fst (Client.send_command self command d) = Ok sent)
  /\ fst (fst (Client.disconnect self d)) = Ok tt.
Proof.
  intros Hbleak.
  pose proof (outcome_of_bleak_only d 0 Hbleak) as H0.
  pose proof (outcome_of_bleak_only d 1 Hbleak) as H1.
  pose proof (outcome_of_bleak_only d 2 Hbleak) as H2.
  pose proof (outcome_of_bleak_only d 3 Hbleak) as H3.
  clear Hbleak. unfold outcome_at in *.
  split; [|split].
  - unfold Client.connect, Bleak.await.
    destruct d as [[|o1 [|o2 rest]] calls];
      cbn [Bleak.pending Bleak.performed nth] in *; auto;
      destruct H0 as [-> | ->]; cbn [Bleak.failure fst snd]; auto;
      destruct H1 as [-> | ->]; cbn [Bleak.failure fst snd]; auto.
  - intros Hcon Hclient.
    unfold Client.send_command, Client.write_and_wait, Bleak.await.
    rewrite Hcon, Hclient. cbn [negb orb].
    destruct d as [[|o1 [|o2 [|o3 [|o4 rest]]]] calls];
      cbn [Bleak.pending Bleak.performed nth] in *;
      repeat match goal with
             | H : _ = Bleak.Done \/ _ = Bleak.BleakFails |- _ =>
                 destruct H as [H | H]; try discriminate H;
                 try (rewrite H in *; clear H)
             end;
      cbn [Bleak.pending Bleak.performed Bleak.failure fst snd]; eauto.
  - unfold Client.disconnect, Bleak.await.
    destruct (Client.has_client self && Client._connected self); [|reflexivity].
    destruct d as [[|o1 [|o2 rest]] calls];
      cbn [Bleak.pending Bleak.performed nth] in *; auto;
      destruct H0 as [-> | ->]; cbn [Bleak.failure fst snd]; auto;
      destruct H1 as [-> | ->]; cbn [Bleak.failure fst snd]; auto.
Qed.

Lemma bleak_errors_do_not_escape_witness :
  let d := device_with [Bleak.Done; Bleak.BleakFails; Bleak.BleakFails] [] in
  let connected :=
    snd (fst (Client.connect (Client.__init__ "AA:BB") "on_notify"%string
                (device_with [] []))) in
  (fst (fst (Client.connect connected "on_notify"%string d)) = Ok true
   \/ fst (fst (Client.connect connected "on_notify"%string d))
      = Raise Client.iPIXELConnectionError)
  /\ (exists sent, fst (Client.send_command connected check_string d) = Ok sent)
  /\ fst (fst (Client.disconnect connected d)) = Ok tt.
Proof.
  cbv zeta.
  destruct (bleak_errors_do_not_escape
              (snd (fst (Client.connect (Client.__init__ "AA:BB")
                           "on_notify"%string (device_with [] []))))
              "on_notify"%string check_string
              (device_with [Bleak.Done; Bleak.BleakFails; Bleak.BleakFails] []))
    as (Hconnect & Hsend & Hdisconnect).
  - unfold fails_as_bleak, device_with. cbn [Bleak.pending].
    repeat (apply Forall_cons; [auto|]). apply Forall_nil.
  - split; [exact Hconnect|]. split; [|exact Hdisconnect].
    apply Hsend; reflexivity.
Defined.
